(** * A shallow embedding of [g-maps.js], the Google Maps facade module.

    The module waits for the external maps library to load, then publishes a
    [Map] constructor.  A [Map] facade owns a reference to a widget, an array
    of marker references and two arrays of callbacks.  The external library is
    treated as an opaque provider: its objects live in a [world] (a heap of
    markers, a heap of widgets and a log of the calls made to user callbacks),
    and the facade methods are state-passing functions over the facade object
    and that world, with JavaScript exceptions as an explicit outcome. *)

From Stdlib Require Import QArith_base String List.
From stdpp Require Import base gmap strings list.

Open Scope string_scope.
Open Scope list_scope.
#[local] Set Warnings "-register-all".

(** ** JavaScript values *)

(** Functions are identified by a reference; calling one is recorded in the
    world's call log (user callbacks are opaque to the module). *)
Inductive jsval :=
| JUndefined
| JNull
| JBool (b : bool)
| JNumber (q : Q)
| JString (s : string)
| JArray (xs : list jsval)
| JObject (props : list (string * jsval))
| JFunction (fid : nat).

Definition typeof (v : jsval) : string :=
  match v with
  | JUndefined => "undefined"
  | JNull => "object"
  | JBool _ => "boolean"
  | JNumber _ => "number"
  | JString _ => "string"
  | JArray _ => "object"
  | JObject _ => "object"
  | JFunction _ => "function"
  end.

(** ToBoolean, as used by [||] (NaN is not among the modelled numbers). *)
Definition truthy (v : jsval) : bool :=
  match v with
  | JUndefined | JNull => false
  | JBool b => b
  | JNumber q => negb (Qeq_bool q 0)
  | JString s => negb (String.eqb s "")
  | JArray _ | JObject _ | JFunction _ => true
  end.

Fixpoint assoc_lookup (k : string) (ps : list (string * jsval)) : jsval :=
  match ps with
  | [] => JUndefined
  | (k', v) :: ps' => if String.eqb k k' then v else assoc_lookup k ps'
  end.

Inductive js_error :=
| TypeError
| ReferenceError
| Error (msg : string).

Inductive outcome (A : Type) :=
| Ok (a : A)
| Throw (e : js_error).
Arguments Ok {A} a.
Arguments Throw {A} e.

(** [v.key]: reading a property of [undefined] or [null] throws. *)
Definition get_prop (v : jsval) (key : string) : outcome jsval :=
  match v with
  | JUndefined | JNull => Throw TypeError
  | JObject ps => Ok (assoc_lookup key ps)
  | _ => Ok JUndefined
  end.

(** [v[n]] for a numeric index. *)
Definition get_index (v : jsval) (n : nat) : outcome jsval :=
  match v with
  | JUndefined | JNull => Throw TypeError
  | JArray xs => Ok (default JUndefined (xs !! n))
  | _ => Ok JUndefined
  end.

(** ** The external library's objects *)

(** [new google.maps.LatLng(lat, lng)] *)
Record LatLng := mkLatLng { lat : jsval; lng : jsval }.

Inductive ZoomControlStyle := LARGE | SMALL | DEFAULT.
Inductive ControlPosition := RIGHT_TOP | TOP_LEFT | TOP_RIGHT | BOTTOM_RIGHT.

Record zoomControlOptions := mkZoomControlOptions {
  style : ZoomControlStyle;
  position : ControlPosition
}.

(** The object built as [this.mapOptions] by the constructor. *)
Record mapOptions_t := mkMapOptions {
  zoom : jsval;
  disableDefaultUI : jsval;
  scrollwheel : jsval;
  zoomControl : jsval;
  center : LatLng;
  zoomControlOpts : zoomControlOptions;
  scaleControl : jsval
}.

(** A listener registered with [google.maps.event.addListener] on a marker:
    the closure built by [assignMarkerEvent] over [callback]. *)
Inductive marker_listener :=
| AssignedMarkerHandler (callback : jsval).

(** A [google.maps.Marker]: the options it was built with (including the
    [data] property) and its listeners, by event name. *)
Record marker := mkMarker {
  mk_position : LatLng;
  mk_icon : jsval;
  mk_map : option nat;          (* the widget it is shown on; None = null *)
  mk_data : jsval;
  mk_listeners : list (string * marker_listener)
}.

(** A [google.maps.Map] widget. *)
Record widget := mkWidget {
  w_elem : jsval;
  w_options : mapOptions_t;
  w_zoom : jsval;
  w_center : LatLng
}.

Record world := mkWorld {
  marker_heap : gmap nat marker;
  widget_heap : gmap nat widget;
  next_ref : nat;
  calls : list (nat * jsval)   (* (function called, argument), oldest first *)
}.

(** ** The facade object ([this] in the methods) *)

Record facade := mkFacade {
  this_ref : nat;
  map_ : option nat;            (* [this.map]; None = null *)
  markers : list nat;
  mapClickCallbacks : list jsval;
  mapZoomCallbacks : list jsval;
  elem : jsval;
  icon : jsval;
  mapOptions : mapOptions_t
}.

Record St := mkSt { this : facade; wld : world }.

Definition set_map_ (m : option nat) (f : facade) : facade :=
  mkFacade (this_ref f) m (markers f) (mapClickCallbacks f) (mapZoomCallbacks f)
           (elem f) (icon f) (mapOptions f).
Definition set_markers (ms : list nat) (f : facade) : facade :=
  mkFacade (this_ref f) (map_ f) ms (mapClickCallbacks f) (mapZoomCallbacks f)
           (elem f) (icon f) (mapOptions f).
Definition set_mapClickCallbacks (cs : list jsval) (f : facade) : facade :=
  mkFacade (this_ref f) (map_ f) (markers f) cs (mapZoomCallbacks f)
           (elem f) (icon f) (mapOptions f).
Definition set_mapZoomCallbacks (cs : list jsval) (f : facade) : facade :=
  mkFacade (this_ref f) (map_ f) (markers f) (mapClickCallbacks f) cs
           (elem f) (icon f) (mapOptions f).

Definition set_marker_heap (h : gmap nat marker) (w : world) : world :=
  mkWorld h (widget_heap w) (next_ref w) (calls w).
Definition set_widget_heap (h : gmap nat widget) (w : world) : world :=
  mkWorld (marker_heap w) h (next_ref w) (calls w).
Definition set_next_ref (n : nat) (w : world) : world :=
  mkWorld (marker_heap w) (widget_heap w) n (calls w).
Definition log_call (fid : nat) (arg : jsval) (w : world) : world :=
  mkWorld (marker_heap w) (widget_heap w) (next_ref w) (calls w ++ [(fid, arg)]).

(** ** A state and exception monad *)

Definition M (A : Type) : Type := St -> St * outcome A.

Definition ret {A} (a : A) : M A := fun s => (s, Ok a).
Definition throw {A} (e : js_error) : M A := fun s => (s, Throw e).
Definition bind {A B} (m : M A) (k : A -> M B) : M B :=
  fun s => match m s with
           | (s', Ok a) => k a s'
           | (s', Throw e) => (s', Throw e)
           end.
Definition gets {A} (f : St -> A) : M A := fun s => (s, Ok (f s)).
Definition modify_this (f : facade -> facade) : M unit :=
  fun s => (mkSt (f (this s)) (wld s), Ok tt).
Definition modify_world (f : world -> world) : M unit :=
  fun s => (mkSt (this s) (f (wld s)), Ok tt).
Definition lift {A} (o : outcome A) : M A :=
  match o with Ok a => ret a | Throw e => throw e end.

Notation "'let*' x := m 'in' k" := (bind m (fun x => k))
  (at level 200, x name, m at level 100, k at level 200).
Notation "'do*' m 'in' k" := (bind m (fun _ => k))
  (at level 200, m at level 100, k at level 200).

(** Allocate a fresh object reference. *)
Definition alloc : M nat :=
  fun s => let n := next_ref (wld s) in
           (mkSt (this s) (set_next_ref (S n) (wld s)), Ok n).

(** [f(arg)]: calling a non-function throws. *)
Definition call (f : jsval) (arg : jsval) : M unit :=
  match f with
  | JFunction fid => modify_world (log_call fid arg)
  | _ => throw TypeError
  end.

(** [return this;] *)
Definition ret_this : M nat := gets (fun s => this_ref (this s)).

(** ** Loading the external library (the [require] callback, lines 70-75) *)

(** The global binding [google] after the loader callback runs. *)
Inductive global_google :=
| GoogleUndeclared
| GoogleValue (g : jsval).

(** The library loaded: [google] and [google.maps] are both present. *)
Definition library_loaded (g : global_google) : bool :=
  match g with
  | GoogleUndeclared => false
  | GoogleValue v =>
      truthy v &&
      match get_prop v "maps" with Ok m => truthy m | Throw _ => false end
  end.

(** The jQuery deferred [$promise]: the callback resolves it with [Map]. *)
Inductive promise_state := Pending | ResolvedWithMap.

(** [if (!google && !google.maps) { throw ... }] then, after the
    definitions, [$promise.resolve(Map)].  [!google] on an undeclared
    global is a ReferenceError; [&&] evaluates [!google.maps] only when
    [google] is falsy. *)
Definition load_guard (g : global_google) : outcome unit :=
  match g with
  | GoogleUndeclared => Throw ReferenceError
  | GoogleValue v =>
      if negb (truthy v) then
        match get_prop v "maps" with
        | Throw e => Throw e
        | Ok m => if negb (truthy m)
                  then Throw (Error "Maps library could not be loaded!")
                  else Ok tt
        end
      else Ok tt
  end.

Definition require_callback (g : global_google) : promise_state * outcome unit :=
  match load_guard g with
  | Throw e => (Pending, Throw e)
  | Ok tt => (ResolvedWithMap, Ok tt)
  end.

(** ** The constructor (lines 77-105) *)

Definition defaultOptions_icon : jsval := JString "map-pin.png".

(** The literal assigned to [this.mapOptions]. *)
Definition initial_mapOptions : mapOptions_t :=
  mkMapOptions (JNumber 4) (JBool true) (JBool false) (JBool true)
    (mkLatLng (JNumber (Qmake 47147354 1000000)) (JNumber (Qmake 16158813 1000000)))
    (mkZoomControlOptions LARGE RIGHT_TOP)
    (JBool false).

(** [new Map(elem, options)], allocating the new object in the world. *)
Definition Map_new (elem options : jsval) (w : world) : world * outcome facade :=
  match get_prop options "icon" with
  | Throw e => (w, Throw e)
  | Ok ic =>
      let r := next_ref w in
      (set_next_ref (S r) w,
       Ok (mkFacade r None [] [] [] elem
                    (if truthy ic then ic else defaultOptions_icon)
                    initial_mapOptions))
  end.

(** ** Widget and marker operations of the external library *)

Definition update_widget (r : nat) (f : widget -> widget) : M unit :=
  let* h := gets (fun s => widget_heap (wld s)) in
  match h !! r with
  | None => throw TypeError
  | Some w => modify_world (set_widget_heap (<[r := f w]> h))
  end.

Definition update_marker (r : nat) (f : marker -> marker) : M unit :=
  let* h := gets (fun s => marker_heap (wld s)) in
  match h !! r with
  | None => throw TypeError
  | Some mk => modify_world (set_marker_heap (<[r := f mk]> h))
  end.

(** [this.map]: a method called on [null] throws. *)
Definition this_map : M nat :=
  let* m := gets (fun s => map_ (this s)) in
  match m with None => throw TypeError | Some r => ret r end.

Definition set_mk_map (m : option nat) (mk : marker) : marker :=
  mkMarker (mk_position mk) (mk_icon mk) m (mk_data mk) (mk_listeners mk).

(** [marker.setMap(m)] *)
Definition marker_setMap (r : nat) (m : option nat) : M unit :=
  update_marker r (set_mk_map m).

(** [new google.maps.Marker(opts)] *)
Definition new_Marker (mk : marker) : M nat :=
  let* r := alloc in
  let* h := gets (fun s => marker_heap (wld s)) in
  do* modify_world (set_marker_heap (<[r := mk]> h)) in
  ret r.

(** ** The facade methods (lines 108-281) *)

(** [Map.prototype.setCenter] *)
Definition setCenter (latLng : jsval) : M nat :=
  let* a := lift (get_index latLng 0) in
  let* b := lift (get_index latLng 1) in
  let* r := this_map in
  do* update_widget r (fun w => mkWidget (w_elem w) (w_options w) (w_zoom w)
                                         (mkLatLng a b)) in
  ret_this.

(** [Map.prototype.setZoom] *)
Definition setZoom (zoom : jsval) : M nat :=
  do* (if String.eqb (typeof zoom) "number"
       then let* r := this_map in
            update_widget r (fun w => mkWidget (w_elem w) (w_options w) zoom
                                               (w_center w))
       else ret tt) in
  ret_this.

(** [Map.prototype.assignMarkerEvent]: [addListener] appends the closure
    [function () { if (typeof callback === 'function') callback(this.data); }]
    to the marker's listeners for [event]. *)
Definition assignMarkerEvent (marker : nat) (event : string) (callback : jsval) : M nat :=
  do* update_marker marker
        (fun mk => mkMarker (mk_position mk) (mk_icon mk) (mk_map mk) (mk_data mk)
                            (mk_listeners mk ++ [(event, AssignedMarkerHandler callback)])) in
  ret_this.

(** The body of [Map.prototype.addMarkers]'s loop, one iteration per
    element of [coordsArray] in index order; [j] is read before the loop and
    the body does not touch [coordsArray]. *)
Fixpoint addMarkers_loop (coordsArray : list jsval) (callback : jsval) : M unit :=
  match coordsArray with
  | [] => ret tt
  | entry :: rest =>
      let* ll := lift (get_prop entry "latLng") in
      let* a := lift (get_index ll 0) in
      let* ll' := lift (get_prop entry "latLng") in
      let* b := lift (get_index ll' 1) in
      let* ic := gets (fun s => icon (this s)) in
      let* m := gets (fun s => map_ (this s)) in
      let* marker := new_Marker (mkMarker (mkLatLng a b) ic m entry []) in
      do* assignMarkerEvent marker "click" callback in
      do* modify_this (fun f => set_markers (markers f ++ [marker]) f) in
      addMarkers_loop rest callback
  end.

(** [Map.prototype.addMarkers] *)
Definition addMarkers (coordsArray : list jsval) (callback : jsval) : M nat :=
  do* addMarkers_loop coordsArray callback in
  ret_this.

(** [for (i; i < j; i++) { this.markers[i].setMap(_map); }], re-reading
    [this.markers] at each step. *)
Fixpoint setAllMap_loop (_map : option nat) (i fuel : nat) : M unit :=
  match fuel with
  | O => ret tt
  | S k =>
      let* ms := gets (fun s => markers (this s)) in
      do* (match ms !! i with
           | Some r => marker_setMap r _map
           | None => throw TypeError
           end) in
      setAllMap_loop _map (S i) k
  end.

(** [Map.prototype.setAllMap]; [_map] is null/undefined ([None]) or a widget. *)
Definition setAllMap (_map : option nat) : M nat :=
  let* ms := gets (fun s => markers (this s)) in
  do* setAllMap_loop _map 0 (length ms) in
  ret_this.

(** [Map.prototype.clearMarkers] *)
Definition clearMarkers : M nat :=
  do* setAllMap None in
  ret_this.

(** [Map.prototype.showMarkers] *)
Definition showMarkers : M nat :=
  let* m := gets (fun s => map_ (this s)) in
  do* setAllMap m in
  ret_this.

(** [Map.prototype.deleteMarkers] *)
Definition deleteMarkers : M nat :=
  do* clearMarkers in
  do* modify_this (set_markers []) in
  ret_this.

(** [Map.prototype.registerMapZoomEvent] *)
Definition registerMapZoomEvent (callback : jsval) : M nat :=
  do* (if String.eqb (typeof callback) "function"
       then modify_this (fun f => set_mapZoomCallbacks (mapZoomCallbacks f ++ [callback]) f)
       else ret tt) in
  ret_this.

(** [Map.prototype.registerMapClickEvent] *)
Definition registerMapClickEvent (callback : jsval) : M nat :=
  do* (if String.eqb (typeof callback) "function"
       then modify_this (fun f => set_mapClickCallbacks (mapClickCallbacks f ++ [callback]) f)
       else ret tt) in
  ret_this.

(** The two property names passed to [onMapInteract] (by [init]). *)
Inductive arrayName_t := MapClickCallbacksName | MapZoomCallbacksName.

Definition this_array (n : arrayName_t) (f : facade) : list jsval :=
  match n with
  | MapClickCallbacksName => mapClickCallbacks f
  | MapZoomCallbacksName => mapZoomCallbacks f
  end.

(** [for (i; i<j; i++) { this[arrayName][i](args); }], re-reading
    [this[arrayName]] at each step ([undefined(args)] throws). *)
Fixpoint onMapInteract_loop (arrayName : arrayName_t) (args : jsval) (i fuel : nat) : M unit :=
  match fuel with
  | O => ret tt
  | S k =>
      let* cbs := gets (fun s => this_array arrayName (this s)) in
      do* call (default JUndefined (cbs !! i)) args in
      onMapInteract_loop arrayName args (S i) k
  end.

(** [Map.prototype.onMapInteract] *)
Definition onMapInteract (arrayName : arrayName_t) (args : jsval) : M nat :=
  let* cbs := gets (fun s => this_array arrayName (this s)) in
  do* onMapInteract_loop arrayName args 0 (length cbs) in
  ret_this.

(** [Map.prototype.getZoom] *)
Definition getZoom : M jsval :=
  let* r := this_map in
  let* h := gets (fun s => widget_heap (wld s)) in
  match h !! r with
  | None => throw TypeError
  | Some w => ret (w_zoom w)
  end.

(** [Map.prototype.init]: builds the widget from [this.elem] and
    [this.mapOptions]; the two listeners it adds are [map_click] and
    [map_zoom_changed] below. *)
Definition init : M nat :=
  let* r := alloc in
  let* f := gets this in
  let* h := gets (fun s => widget_heap (wld s)) in
  do* modify_world (set_widget_heap
         (<[r := mkWidget (elem f) (mapOptions f) (zoom (mapOptions f))
                          (center (mapOptions f))]> h)) in
  do* modify_this (set_map_ (Some r)) in
  ret_this.

(** The widget's ['click'] listener installed by [init]. *)
Definition map_click (event : jsval) : M unit :=
  do* onMapInteract MapClickCallbacksName event in ret tt.

(** The widget's ['zoom_changed'] listener installed by [init]. *)
Definition map_zoom_changed : M unit :=
  let* z := getZoom in
  do* onMapInteract MapZoomCallbacksName z in ret tt.

(** A marker event fired by the library: each listener for [ev] runs with
    [this] bound to the marker. *)
Definition run_marker_listener (marker : nat) (l : marker_listener) : M unit :=
  match l with
  | AssignedMarkerHandler callback =>
      if String.eqb (typeof callback) "function"
      then let* h := gets (fun s => marker_heap (wld s)) in
           match h !! marker with
           | Some mk => call callback (mk_data mk)
           | None => throw TypeError
           end
      else ret tt
  end.

Fixpoint run_marker_listeners (marker : nat) (ev : string)
         (ls : list (string * marker_listener)) : M unit :=
  match ls with
  | [] => ret tt
  | (ev', l) :: rest =>
      do* (if String.eqb ev ev' then run_marker_listener marker l else ret tt) in
      run_marker_listeners marker ev rest
  end.

Definition trigger_marker (marker : nat) (ev : string) : M unit :=
  let* h := gets (fun s => marker_heap (wld s)) in
  match h !! marker with
  | Some mk => run_marker_listeners marker ev (mk_listeners mk)
  | None => ret tt
  end.

(** ** Sequences of calls on one facade *)

(** An entry whose [coordsArray[i].latLng[0]] and [[1]] can be read. *)
Definition entry_ok (entry : jsval) : bool :=
  match get_prop entry "latLng" with
  | Ok ll => match get_index ll 0 with Ok _ => true | Throw _ => false end
  | Throw _ => false
  end.

(** The caller-supplied payload of an entry: [entry.data]. *)
Definition entry_payload (entry : jsval) : jsval :=
  match get_prop entry "data" with Ok v => v | Throw _ => JUndefined end.

(** Every call a client or the library can make on a facade. *)
Inductive method_call :=
| CallSetCenter (latLng : jsval)
| CallSetZoom (z : jsval)
| CallAddMarkers (coordsArray : list jsval) (callback : jsval)
| CallSetAllMap (m : option nat)
| CallClearMarkers
| CallShowMarkers
| CallDeleteMarkers
| CallRegisterMapZoomEvent (callback : jsval)
| CallRegisterMapClickEvent (callback : jsval)
| CallOnMapInteract (n : arrayName_t) (args : jsval)
| CallGetZoom
| CallInit
| FireMapClick (event : jsval)
| FireMapZoomChanged
| FireMarkerEvent (marker : nat) (ev : string).

Definition run_call (c : method_call) : M unit :=
  match c with
  | CallSetCenter ll => do* setCenter ll in ret tt
  | CallSetZoom z => do* setZoom z in ret tt
  | CallAddMarkers es cb => do* addMarkers es cb in ret tt
  | CallSetAllMap m => do* setAllMap m in ret tt
  | CallClearMarkers => do* clearMarkers in ret tt
  | CallShowMarkers => do* showMarkers in ret tt
  | CallDeleteMarkers => do* deleteMarkers in ret tt
  | CallRegisterMapZoomEvent cb => do* registerMapZoomEvent cb in ret tt
  | CallRegisterMapClickEvent cb => do* registerMapClickEvent cb in ret tt
  | CallOnMapInteract n a => do* onMapInteract n a in ret tt
  | CallGetZoom => do* getZoom in ret tt
  | CallInit => do* init in ret tt
  | FireMapClick ev => map_click ev
  | FireMapZoomChanged => map_zoom_changed
  | FireMarkerEvent r ev => trigger_marker r ev
  end.

(** States of a facade: built by [new Map], then any calls, whether they
    returned or threw (a caller may catch the exception and go on). *)
Inductive reachable : St -> Prop :=
| reachable_new (el options : jsval) (w w' : world) (f : facade) :
    Map_new el options w = (w', Ok f) -> reachable (mkSt f w')
| reachable_call (s : St) (c : method_call) :
    reachable s -> reachable (fst (run_call c s)).

(** Every stored marker reference denotes a marker object. *)
Definition markers_live (s : St) : Prop :=
  Forall (fun r => is_Some (marker_heap (wld s) !! r)) (markers (this s)).

(** Client operations that only register callbacks or add markers. *)
Inductive build_op :=
| OpRegisterMapClickEvent (callback : jsval)
| OpRegisterMapZoomEvent (callback : jsval)
| OpAddMarkers (coordsArray : list jsval) (callback : jsval).

Definition run_build_op (o : build_op) : M nat :=
  match o with
  | OpRegisterMapClickEvent cb => registerMapClickEvent cb
  | OpRegisterMapZoomEvent cb => registerMapZoomEvent cb
  | OpAddMarkers es cb => addMarkers es cb
  end.

Fixpoint run_build_ops (os : list build_op) : M unit :=
  match os with
  | [] => ret tt
  | o :: rest => do* run_build_op o in run_build_ops rest
  end.

Definition is_function (v : jsval) : bool := String.eqb (typeof v) "function".

Definition click_regs (os : list build_op) : list jsval :=
  filter (fun v => is_function v = true)
    (flat_map (fun o => match o with OpRegisterMapClickEvent cb => [cb] | _ => [] end) os).
Definition zoom_regs (os : list build_op) : list jsval :=
  filter (fun v => is_function v = true)
    (flat_map (fun o => match o with OpRegisterMapZoomEvent cb => [cb] | _ => [] end) os).
Definition added_entries (os : list build_op) : list jsval :=
  flat_map (fun o => match o with OpAddMarkers es _ => es | _ => [] end) os.

(** ** Concrete inputs *)

Definition empty_world : world := mkWorld ∅ ∅ 0 [].

Definition st_of (p : world * outcome facade) : St :=
  match p with
  | (w, Ok f) => mkSt f w
  | (w, Throw _) => mkSt (mkFacade 0 None [] [] [] JNull JNull initial_mapOptions) w
  end.

(** [new Map(div, {})] followed by [init()]. *)
Definition example_new : St := st_of (Map_new (JString "div") (JObject []) empty_world).
Definition example_inited : St := fst (init example_new).

Definition entry_1_2 : jsval :=
  JObject [("latLng", JArray [JNumber 1; JNumber 2]);
           ("data", JObject [("a", JNumber 1)])].
Definition entry_3_4 : jsval :=
  JObject [("latLng", JArray [JNumber 3; JNumber 4]);
           ("data", JObject [("b", JNumber 2)])].

(** The state after one iteration of [addMarkers]'s loop on [entry] at
    [(a, b)]: a fresh marker with one click listener, appended. *)
Definition added_marker (s : St) (entry a b callback : jsval) : marker :=
  mkMarker (mkLatLng a b) (icon (this s)) (map_ (this s)) entry
           [("click", AssignedMarkerHandler callback)].

Definition add_step (s : St) (entry a b callback : jsval) : St :=
  let r := next_ref (wld s) in
  mkSt (set_markers (markers (this s) ++ [r]) (this s))
       (mkWorld (<[r := added_marker s entry a b callback]> (marker_heap (wld s)))
                (widget_heap (wld s)) (S r) (calls (wld s))).

(** Registering [cbs] one by one with the method for the list [n]. *)
Definition register_for (n : arrayName_t) : jsval -> M nat :=
  match n with
  | MapClickCallbacksName => registerMapClickEvent
  | MapZoomCallbacksName => registerMapZoomEvent
  end.

Fixpoint register_each (n : arrayName_t) (cbs : list jsval) : M unit :=
  match cbs with
  | [] => ret tt
  | cb :: rest => do* register_for n cb in register_each n rest
  end.

Definition set_this_array (n : arrayName_t) (cs : list jsval) (f : facade) : facade :=
  match n with
  | MapClickCallbacksName => set_mapClickCallbacks cs f
  | MapZoomCallbacksName => set_mapZoomCallbacks cs f
  end.

Definition add_calls (l : list (nat * jsval)) (w : world) : world :=
  mkWorld (marker_heap w) (widget_heap w) (next_ref w) (calls w ++ l).

(** [s'] keeps every marker object of [s], and keeps every stored marker
    reference live if [s] did. *)
Definition grows (s s' : St) : Prop :=
  (forall r, is_Some (marker_heap (wld s) !! r) -> is_Some (marker_heap (wld s') !! r)) /\
  (markers_live s -> markers_live s').

Definition stays {A} (m : M A) : Prop := forall s, grows s (fst (m s)).

(** Both callback arrays hold only functions. *)
Definition callbacks_callable (f : facade) : Prop :=
  Forall (fun v => is_function v = true) (mapClickCallbacks f) /\
  Forall (fun v => is_function v = true) (mapZoomCallbacks f).

(** [m] keeps the property [P] of the state, whatever it returns or throws. *)
Definition keeps (P : St -> Prop) {A} (m : M A) : Prop :=
  forall s, P s -> P (fst (m s)).

Definition callable_st (s : St) : Prop := callbacks_callable (this s).

(** A facade reached by [new Map], [init()], three registrations and one
    [addMarkers] call. *)
Definition example_callbacks : St :=
  fst (run_call (CallAddMarkers [entry_1_2] (JFunction 6))
   (fst (run_call (CallRegisterMapZoomEvent (JFunction 5))
    (fst (run_call (CallRegisterMapClickEvent (JFunction 4))
     (fst (run_call (CallRegisterMapClickEvent (JString "no"))
      (fst (run_call CallInit example_new))))))))).

(** * Proofs *)

Ltac unfold_M :=
  unfold bind, ret, throw, gets, modify_this, modify_world, lift in *.

Lemma addMarkers_loop_cons (entry : jsval) (rest : list jsval) (callback : jsval)
      (s : St) (ll a b : jsval) :
  get_prop entry "latLng" = Ok ll -> get_index ll 0 = Ok a -> get_index ll 1 = Ok b ->
  addMarkers_loop (entry :: rest) callback s
  = addMarkers_loop rest callback (add_step s entry a b callback).
Proof.
  intros Hll Ha Hb. cbn [addMarkers_loop].
  unfold_M. rewrite Hll. unfold ret. cbn beta iota.
  rewrite Ha. unfold ret. cbn beta iota.
  rewrite Hb. unfold ret. cbn beta iota.
  unfold new_Marker, alloc, assignMarkerEvent, update_marker, ret_this. unfold_M.
  cbn. rewrite lookup_insert_eq. cbn. rewrite insert_insert_eq. reflexivity.
Qed.

Lemma entry_ok_inv (entry : jsval) :
  entry_ok entry = true ->
  exists ll a b, get_prop entry "latLng" = Ok ll /\ get_index ll 0 = Ok a /\
                 get_index ll 1 = Ok b.
Proof.
  unfold entry_ok. destruct (get_prop entry "latLng") as [ll|] eqn:E; [|discriminate].
  destruct ll; cbn; intros H; try discriminate; eauto 10.
Qed.

Lemma added_marker_same (s s' : St) (entry a b callback : jsval) :
  icon (this s') = icon (this s) -> map_ (this s') = map_ (this s) ->
  added_marker s' entry a b callback = added_marker s entry a b callback.
Proof. unfold added_marker. intros -> ->. reflexivity. Qed.

(** The loop of [addMarkers] on well-formed entries: fresh references are
    appended in entry order, each denoting a marker that carries its entry;
    no other part of the facade changes and older heap cells are kept. *)
Lemma addMarkers_loop_spec (entries : list jsval) (callback : jsval) (s : St) :
  Forall (fun e => entry_ok e = true) entries ->
  exists rs s',
    addMarkers_loop entries callback s = (s', Ok tt) /\
    markers (this s') = markers (this s) ++ rs /\
    Forall2 (fun r e => exists a b,
               marker_heap (wld s') !! r = Some (added_marker s e a b callback)) rs entries /\
    Forall (fun r => next_ref (wld s) <= r < next_ref (wld s')) rs /\
    (forall r, r < next_ref (wld s) -> marker_heap (wld s') !! r = marker_heap (wld s) !! r) /\
    next_ref (wld s) <= next_ref (wld s') /\
    this_ref (this s') = this_ref (this s) /\ map_ (this s') = map_ (this s) /\
    icon (this s') = icon (this s) /\
    mapClickCallbacks (this s') = mapClickCallbacks (this s) /\
    mapZoomCallbacks (this s') = mapZoomCallbacks (this s) /\
    widget_heap (wld s') = widget_heap (wld s) /\ calls (wld s') = calls (wld s).
Proof.
  revert s. induction entries as [|e es IH]; intros s Hok.
  - exists [], s. rewrite app_nil_r. repeat split; auto.
  - inversion Hok as [|? ? He Hes]; subst.
    destruct (entry_ok_inv e He) as (ll & a & b & Hll & Ha & Hb).
    rewrite (addMarkers_loop_cons e es callback s ll a b Hll Ha Hb).
    destruct (IH (add_step s e a b callback) Hes)
      as (rs & s' & Hrun & Hms & Hdata & Hfresh & Hframe & Hnext & Href & Hmap & Hicon
          & Hclick & Hzoom & Hw & Hcalls).
    unfold add_step in *. cbn in *.
    exists (next_ref (wld s) :: rs), s'.
    split; [exact Hrun|].
    split; [rewrite Hms, <- app_assoc; reflexivity|].
    split.
    { constructor.
      - exists a, b. rewrite Hframe by lia. apply lookup_insert_eq.
      - eapply Forall2_impl; [exact Hdata|]. intros r e' (a' & b' & H).
        exists a', b'. rewrite H. reflexivity. }
    split.
    { constructor; [lia|]. eapply Forall_impl; [exact Hfresh|]. intros r Hr. cbn in Hr. lia. }
    split.
    { intros r Hr. rewrite Hframe by lia. apply lookup_insert_ne. lia. }
    repeat split; auto; lia.
Qed.

Lemma addMarkers_run (entries : list jsval) (callback : jsval) (s s' : St) :
  addMarkers_loop entries callback s = (s', Ok tt) ->
  this_ref (this s') = this_ref (this s) ->
  addMarkers entries callback s = (s', Ok (this_ref (this s))).
Proof.
  intros Hrun Href. unfold addMarkers, ret_this. unfold_M. rewrite Hrun. rewrite Href.
  reflexivity.
Qed.

(** ** C1 *)

(** C1: for every array of N well-formed marker entries, [addMarkers] returns
    the facade and leaves the marker list as the previous list followed by N
    new handles, in entry order (nothing is de-duplicated against earlier
    handles); the i-th new handle is a marker whose [data] is the i-th entry,
    shown on the facade's current widget. *)
Theorem addMarkers_appends_in_order (entries : list jsval) (callback : jsval) (s : St) :
  Forall (fun e => entry_ok e = true) entries ->
  exists rs s',
    addMarkers entries callback s = (s', Ok (this_ref (this s))) /\
    markers (this s') = markers (this s) ++ rs /\
    length rs = length entries /\
    Forall2 (fun r e => exists mk, marker_heap (wld s') !! r = Some mk /\
                                   mk_data mk = e /\ mk_map mk = map_ (this s)) rs entries.
Proof.
  intros Hok.
  destruct (addMarkers_loop_spec entries callback s Hok)
    as (rs & s' & Hrun & Hms & Hdata & _ & _ & _ & Href & _).
  exists rs, s'. split; [apply addMarkers_run; assumption|].
  split; [exact Hms|].
  split; [eapply Forall2_length; exact Hdata|].
  eapply Forall2_impl; [exact Hdata|]. intros r e (a & b & H).
  eexists; split; [exact H|]. split; reflexivity.
Qed.

Lemma addMarkers_appends_in_order_witness :
  Forall (fun e => entry_ok e = true) [entry_1_2; entry_3_4; entry_1_2] /\
  exists rs s',
    addMarkers [entry_1_2; entry_3_4; entry_1_2] (JFunction 7) example_inited
      = (s', Ok (this_ref (this example_inited))) /\
    markers (this s') = markers (this example_inited) ++ rs /\
    length rs = length [entry_1_2; entry_3_4; entry_1_2] /\
    Forall2 (fun r e => exists mk, marker_heap (wld s') !! r = Some mk /\
                                   mk_data mk = e /\ mk_map mk = map_ (this example_inited))
            rs [entry_1_2; entry_3_4; entry_1_2].
Proof.
  assert (H : Forall (fun e => entry_ok e = true) [entry_1_2; entry_3_4; entry_1_2])
    by (repeat constructor).
  split; [exact H|].
  exact (addMarkers_appends_in_order [entry_1_2; entry_3_4; entry_1_2] (JFunction 7)
           example_inited H).
Defined.

(** ** C2 *)

Lemma trigger_added_marker (s : St) (r : nat) (entry a b callback : jsval) :
  marker_heap (wld s) !! r = Some (added_marker s entry a b callback) ->
  exists s'', trigger_marker r "click" s = (s'', Ok tt) /\
    calls (wld s'') = calls (wld s) ++
      match callback with JFunction fid => [(fid, entry)] | _ => [] end.
Proof.
  intros H. unfold trigger_marker. unfold_M. rewrite H. cbn.
  unfold run_marker_listener.
  destruct callback; cbn; unfold_M; cbn;
    try (eexists; split; [reflexivity|]; rewrite app_nil_r; reflexivity).
  rewrite H. cbn. eexists; split; reflexivity.
Qed.

(** C2 (as the code does it): for every marker created by
    [addMarkers(entries, onClick)] with well-formed entries, firing that
    marker's click event calls [onClick] exactly once, with the marker's
    [data], which is the whole entry object (coordinates and payload), when
    [onClick] is a function, and calls nothing otherwise. *)
Theorem addMarkers_click_passes_entry (entries : list jsval) (callback : jsval) (s : St) :
  Forall (fun e => entry_ok e = true) entries ->
  exists rs s',
    addMarkers entries callback s = (s', Ok (this_ref (this s))) /\
    markers (this s') = markers (this s) ++ rs /\
    Forall2 (fun r e => exists s'', trigger_marker r "click" s' = (s'', Ok tt) /\
               calls (wld s'') = calls (wld s') ++
                 match callback with JFunction fid => [(fid, e)] | _ => [] end)
            rs entries.
Proof.
  intros Hok.
  destruct (addMarkers_loop_spec entries callback s Hok)
    as (rs & s' & Hrun & Hms & Hdata & _ & _ & _ & Href & Hmap & Hicon & _).
  exists rs, s'. split; [apply addMarkers_run; assumption|].
  split; [exact Hms|].
  eapply Forall2_impl; [exact Hdata|]. intros r e (a & b & H).
  apply (trigger_added_marker s' r e a b callback).
  rewrite H. f_equal. symmetry. apply added_marker_same; assumption.
Qed.

Lemma addMarkers_click_passes_entry_witness :
  Forall (fun e => entry_ok e = true) [entry_1_2; entry_3_4] /\
  exists rs s',
    addMarkers [entry_1_2; entry_3_4] (JFunction 7) example_inited
      = (s', Ok (this_ref (this example_inited))) /\
    markers (this s') = markers (this example_inited) ++ rs /\
    Forall2 (fun r e => exists s'', trigger_marker r "click" s' = (s'', Ok tt) /\
               calls (wld s'') = calls (wld s') ++ [(7, e)])
            rs [entry_1_2; entry_3_4].
Proof.
  assert (H : Forall (fun e => entry_ok e = true) [entry_1_2; entry_3_4])
    by (repeat constructor).
  split; [exact H|].
  exact (addMarkers_click_passes_entry [entry_1_2; entry_3_4] (JFunction 7)
           example_inited H).
Defined.

(** C2 as stated fails: after [addMarkers([{latLng: [1, 2], data: {a: 1}}], f)]
    on a fresh initialised facade, clicking the new marker calls [f] with the
    whole entry, not with its payload [{a: 1}]. *)
Lemma addMarkers_click_payload_counterexample :
  let s1 := fst (addMarkers [entry_1_2] (JFunction 7) example_inited) in
  let r := next_ref (wld example_inited) in
  markers (this s1) = [r] /\
  calls (wld (fst (trigger_marker r "click" s1))) = [(7, entry_1_2)] /\
  calls (wld (fst (trigger_marker r "click" s1))) <> [(7, entry_payload entry_1_2)].
Proof.
  vm_compute. split; [reflexivity|]. split; [reflexivity|]. discriminate.
Qed.

(** ** The live-marker invariant *)

Lemma grows_refl (s : St) : grows s s.
Proof. split; auto. Qed.

Lemma grows_trans (s1 s2 s3 : St) : grows s1 s2 -> grows s2 s3 -> grows s1 s3.
Proof. intros [H1 H2] [H3 H4]. split; auto. Qed.

Lemma stays_bind {A B} (m : M A) (k : A -> M B) :
  stays m -> (forall a, stays (k a)) -> stays (bind m k).
Proof.
  intros Hm Hk s. specialize (Hm s). unfold bind.
  destruct (m s) as [s1 [a|e]]; cbn in *; [|exact Hm].
  eapply grows_trans; [exact Hm|]. apply Hk.
Qed.

Lemma stays_ret {A} (a : A) : stays (ret a).
Proof. intros s. apply grows_refl. Qed.

Lemma stays_throw {A} (e : js_error) : stays (@throw A e).
Proof. intros s. apply grows_refl. Qed.

Lemma stays_gets {A} (f : St -> A) : stays (gets f).
Proof. intros s. apply grows_refl. Qed.

Lemma stays_lift {A} (o : outcome A) : stays (lift o).
Proof. destruct o; [apply stays_ret|apply stays_throw]. Qed.

Lemma stays_modify_world (f : world -> world) :
  (forall w r, is_Some (marker_heap w !! r) -> is_Some (marker_heap (f w) !! r)) ->
  stays (modify_world f).
Proof.
  intros Hf s. split; cbn; [auto|].
  unfold markers_live; cbn. intros H. eapply Forall_impl; [exact H|]. auto.
Qed.

Lemma stays_modify_this (f : facade -> facade) :
  (forall fac, markers (f fac) = markers fac \/ markers (f fac) = []) ->
  stays (modify_this f).
Proof.
  intros Hf s. split; cbn; [auto|].
  unfold markers_live; cbn. destruct (Hf (this s)) as [-> | ->]; auto.
Qed.

Lemma stays_insert_marker (r : nat) (mk : marker) :
  stays (let* h := gets (fun s => marker_heap (wld s)) in
         modify_world (set_marker_heap (<[r := mk]> h))).
Proof.
  intros s. unfold_M. cbn. split; cbn.
  - intros r' H. rewrite lookup_insert_is_Some'. auto.
  - unfold markers_live; cbn. intros H. eapply Forall_impl; [exact H|].
    intros r' H'. rewrite lookup_insert_is_Some'. auto.
Qed.

Lemma stays_alloc : stays alloc.
Proof.
  intros s. unfold alloc. split; cbn; auto.
Qed.

Lemma stays_call (f arg : jsval) : stays (call f arg).
Proof.
  destruct f; try apply stays_throw. apply stays_modify_world. auto.
Qed.

Lemma stays_update_widget (r : nat) (f : widget -> widget) : stays (update_widget r f).
Proof.
  unfold update_widget. apply stays_bind; [apply stays_gets|]. intros h.
  destruct (h !! r); [|apply stays_throw]. apply stays_modify_world. auto.
Qed.

Lemma stays_update_marker (r : nat) (f : marker -> marker) : stays (update_marker r f).
Proof.
  unfold update_marker. intros s. unfold_M.
  destruct (marker_heap (wld s) !! r) eqn:E; [|apply grows_refl].
  cbn. split; cbn.
  - intros r' H. rewrite lookup_insert_is_Some'. auto.
  - unfold markers_live; cbn. intros H. eapply Forall_impl; [exact H|].
    intros r' H'. rewrite lookup_insert_is_Some'. auto.
Qed.

Create HintDb stays_db.
#[local] Hint Resolve stays_ret stays_throw stays_gets stays_lift stays_alloc stays_call
  stays_update_widget stays_update_marker : stays_db.

Ltac stays_tac :=
  repeat match goal with
  | |- stays (bind _ _) => apply stays_bind; [|intro]
  | |- stays (match ?x with _ => _ end) => destruct x
  | |- stays (if ?b then _ else _) => destruct b
  | |- stays (modify_this _) => apply stays_modify_this; intros; cbn; auto
  | |- stays (modify_world _) => apply stays_modify_world; intros; cbn; auto
  | |- stays ret_this => apply stays_gets
  | |- stays this_map => unfold this_map
  | |- _ => solve [eauto with stays_db]
  end.

Lemma stays_setAllMap_loop (m : option nat) (fuel i : nat) : stays (setAllMap_loop m i fuel).
Proof.
  revert i. induction fuel as [|k IH]; intros i; cbn [setAllMap_loop]; [apply stays_ret|].
  unfold marker_setMap. stays_tac.
Qed.

Lemma stays_onMapInteract_loop (n : arrayName_t) (args : jsval) (fuel i : nat) :
  stays (onMapInteract_loop n args i fuel).
Proof.
  revert i. induction fuel as [|k IH]; intros i; cbn [onMapInteract_loop]; [apply stays_ret|].
  stays_tac.
Qed.

Lemma stays_run_marker_listeners (r : nat) (ev : string) (ls : list (string * marker_listener)) :
  stays (run_marker_listeners r ev ls).
Proof.
  induction ls as [|[ev' l] ls IH]; cbn [run_marker_listeners]; [apply stays_ret|].
  unfold run_marker_listener. stays_tac.
Qed.

#[local] Hint Resolve stays_setAllMap_loop stays_onMapInteract_loop
  stays_run_marker_listeners : stays_db.

Lemma stays_setAllMap (m : option nat) : stays (setAllMap m).
Proof. unfold setAllMap. stays_tac. Qed.

Lemma stays_onMapInteract (n : arrayName_t) (args : jsval) : stays (onMapInteract n args).
Proof. unfold onMapInteract. stays_tac. Qed.

Lemma stays_getZoom : stays getZoom.
Proof. unfold getZoom. stays_tac. Qed.

#[local] Hint Resolve stays_setAllMap stays_onMapInteract stays_getZoom : stays_db.

Lemma stays_clearMarkers : stays clearMarkers.
Proof. unfold clearMarkers. stays_tac. Qed.

#[local] Hint Resolve stays_clearMarkers : stays_db.

Lemma grows_add_step (s : St) (entry a b callback : jsval) :
  grows s (add_step s entry a b callback).
Proof.
  split; unfold add_step; cbn.
  - intros r H. rewrite lookup_insert_is_Some'. auto.
  - unfold markers_live; cbn. intros H. apply Forall_app. split.
    + eapply Forall_impl; [exact H|]. intros r' H'. rewrite lookup_insert_is_Some'. auto.
    + constructor; [|constructor]. rewrite lookup_insert_eq. eauto.
Qed.

Lemma stays_addMarkers_loop (coordsArray : list jsval) (callback : jsval) :
  stays (addMarkers_loop coordsArray callback).
Proof.
  induction coordsArray as [|entry rest IH]; intros s; [apply grows_refl|].
  destruct (get_prop entry "latLng") as [ll|e] eqn:Hll.
  - destruct (get_index ll 0) as [a|e] eqn:Ha.
    + destruct (get_index ll 1) as [b|e] eqn:Hb.
      * rewrite (addMarkers_loop_cons entry rest callback s ll a b Hll Ha Hb).
        eapply grows_trans; [apply grows_add_step|apply IH].
      * cbn [addMarkers_loop]. unfold_M. rewrite Hll. unfold ret. cbn beta iota.
        rewrite Ha. unfold ret. cbn beta iota. rewrite Hb. cbn. apply grows_refl.
    + cbn [addMarkers_loop]. unfold_M. rewrite Hll. unfold ret. cbn beta iota.
      rewrite Ha. cbn. apply grows_refl.
  - cbn [addMarkers_loop]. unfold_M. rewrite Hll. cbn. apply grows_refl.
Qed.

#[local] Hint Resolve stays_addMarkers_loop : stays_db.

Lemma stays_run_call (c : method_call) : stays (run_call c).
Proof.
  destruct c; cbn [run_call];
    unfold setCenter, setZoom, addMarkers, clearMarkers, showMarkers, deleteMarkers,
      registerMapZoomEvent, registerMapClickEvent, init, map_click, map_zoom_changed,
      trigger_marker; stays_tac.
Qed.

Lemma reachable_markers_live (s : St) : reachable s -> markers_live s.
Proof.
  induction 1 as [el options w w' f Hnew | s c Hs IH].
  - unfold Map_new in Hnew. destruct (get_prop options "icon"); [|discriminate].
    inversion Hnew; subst. constructor.
  - apply (stays_run_call c s). exact IH.
Qed.

(** ** [setAllMap], [clearMarkers] and [deleteMarkers] on live markers *)

Lemma set_mk_map_idem (m : option nat) (mk : marker) :
  set_mk_map m (set_mk_map m mk) = set_mk_map m mk.
Proof. reflexivity. Qed.

Lemma setAllMap_loop_spec (m : option nat) (fuel i : nat) (s : St) :
  markers_live s -> i + fuel <= length (markers (this s)) ->
  exists s',
    setAllMap_loop m i fuel s = (s', Ok tt) /\
    this s' = this s /\
    widget_heap (wld s') = widget_heap (wld s) /\ next_ref (wld s') = next_ref (wld s) /\
    calls (wld s') = calls (wld s) /\
    forall r, marker_heap (wld s') !! r =
              if bool_decide (r ∈ take fuel (drop i (markers (this s))))
              then set_mk_map m <$> marker_heap (wld s) !! r
              else marker_heap (wld s) !! r.
Proof.
  revert i s. induction fuel as [|k IH]; intros i s Hlive Hlen.
  - exists s. cbn. do 5 (split; [reflexivity|]). intros r.
    rewrite bool_decide_false; [reflexivity|]. rewrite take_0. apply not_elem_of_nil.
  - destruct (lookup_lt_is_Some_2 (markers (this s)) i) as [r Hr]; [lia|].
    assert (Hr_live : is_Some (marker_heap (wld s) !! r)).
    { unfold markers_live in Hlive. rewrite Forall_lookup in Hlive. eauto. }
    destruct Hr_live as [mk Hmk].
    set (s1 := mkSt (this s) (set_marker_heap (<[r := set_mk_map m mk]> (marker_heap (wld s)))
                                              (wld s))).
    assert (Hstep : setAllMap_loop m i (S k) s = setAllMap_loop m (S i) k s1).
    { cbn [setAllMap_loop]. unfold_M. rewrite Hr. unfold marker_setMap, update_marker.
      unfold_M. rewrite Hmk. reflexivity. }
    assert (Hlive1 : markers_live s1).
    { unfold markers_live in *. cbn. eapply Forall_impl; [exact Hlive|].
      intros r' H'. rewrite lookup_insert_is_Some'. auto. }
    destruct (IH (S i) s1 Hlive1 ltac:(cbn; lia))
      as (s' & Hrun & Hthis & Hwid & Hnext & Hcalls & Hheap).
    exists s'. rewrite Hstep. cbn in *.
    split; [exact Hrun|]. split; [exact Hthis|].
    split; [exact Hwid|]. split; [exact Hnext|]. split; [exact Hcalls|].
    intros r'. rewrite Hheap.
    rewrite (drop_S (markers (this s)) r i Hr). cbn [take].
    destruct (decide (r' = r)) as [->|Hne].
    + rewrite lookup_insert_eq, Hmk.
      rewrite (bool_decide_true (r ∈ r :: _)) by (apply elem_of_cons; left; reflexivity).
      case_bool_decide; reflexivity.
    + rewrite lookup_insert_ne by congruence.
      assert (Hiff : r' ∈ r :: take k (drop (S i) (markers (this s))) <->
                     r' ∈ take k (drop (S i) (markers (this s)))).
      { rewrite elem_of_cons. split; [intros [H|H]; [congruence|exact H]|auto]. }
      repeat case_bool_decide; tauto || reflexivity.
Qed.

Lemma clearMarkers_spec (s : St) :
  markers_live s ->
  exists s',
    clearMarkers s = (s', Ok (this_ref (this s))) /\
    this s' = this s /\
    widget_heap (wld s') = widget_heap (wld s) /\ calls (wld s') = calls (wld s) /\
    forall r, marker_heap (wld s') !! r =
              if bool_decide (r ∈ markers (this s))
              then set_mk_map None <$> marker_heap (wld s) !! r
              else marker_heap (wld s) !! r.
Proof.
  intros Hlive.
  destruct (setAllMap_loop_spec None (length (markers (this s))) 0 s Hlive ltac:(lia))
    as (s' & Hrun & Hthis & Hwid & _ & Hcalls & Hheap).
  exists s'. unfold clearMarkers, setAllMap, ret_this. unfold_M. cbn.
  rewrite Hrun. cbn. rewrite Hthis.
  split; [reflexivity|]. split; [reflexivity|]. split; [exact Hwid|]. split; [exact Hcalls|].
  intros r. rewrite Hheap, drop_0, take_ge by lia. reflexivity.
Qed.

(** A facade reached by [new Map], [init()] and two [addMarkers] calls. *)
Lemma example_markers_reachable :
  reachable (fst (run_call (CallAddMarkers [entry_3_4] (JFunction 8))
                   (fst (run_call (CallAddMarkers [entry_1_2; entry_3_4] (JFunction 7))
                           (fst (run_call CallInit example_new)))))).
Proof.
  repeat apply reachable_call.
  eapply (reachable_new (JString "div") (JObject []) empty_world). reflexivity.
Qed.

(** ** C3 *)

(** C3: in every reachable facade state, [deleteMarkers] returns the facade,
    every marker that was stored ends with its map set to null (hidden), no
    other marker object changes, and the facade's marker list is then empty
    (all other facade fields unchanged). *)
Theorem deleteMarkers_hides_then_empties (s : St) :
  reachable s ->
  exists s',
    deleteMarkers s = (s', Ok (this_ref (this s))) /\
    this s' = set_markers [] (this s) /\
    markers (this s') = [] /\
    (forall r, r ∈ markers (this s) ->
       exists mk, marker_heap (wld s') !! r = Some mk /\ mk_map mk = None) /\
    (forall r, r ∉ markers (this s) -> marker_heap (wld s') !! r = marker_heap (wld s) !! r).
Proof.
  intros Hreach. pose proof (reachable_markers_live s Hreach) as Hlive.
  destruct (clearMarkers_spec s Hlive) as (s1 & Hclear & Hthis & _ & _ & Hheap).
  exists (mkSt (set_markers [] (this s1)) (wld s1)).
  unfold deleteMarkers, ret_this. unfold_M. rewrite Hclear. cbn. rewrite Hthis.
  split; [reflexivity|]. split; [reflexivity|]. split; [reflexivity|]. split.
  - intros r Hr. unfold markers_live in Hlive. rewrite Forall_forall in Hlive.
    destruct (Hlive r Hr) as [mk Hmk].
    rewrite Hheap, bool_decide_true, Hmk by exact Hr. cbn.
    eexists; split; reflexivity.
  - intros r Hr. rewrite Hheap, bool_decide_false by exact Hr. reflexivity.
Qed.

Lemma deleteMarkers_hides_then_empties_witness :
  let s := fst (run_call (CallAddMarkers [entry_3_4] (JFunction 8))
                 (fst (run_call (CallAddMarkers [entry_1_2; entry_3_4] (JFunction 7))
                         (fst (run_call CallInit example_new))))) in
  reachable s /\
  exists s',
    deleteMarkers s = (s', Ok (this_ref (this s))) /\
    this s' = set_markers [] (this s) /\
    markers (this s') = [] /\
    (forall r, r ∈ markers (this s) ->
       exists mk, marker_heap (wld s') !! r = Some mk /\ mk_map mk = None) /\
    (forall r, r ∉ markers (this s) -> marker_heap (wld s') !! r = marker_heap (wld s) !! r).
Proof.
  intros s. split; [exact example_markers_reachable|].
  exact (deleteMarkers_hides_then_empties s example_markers_reachable).
Defined.

(** ** C4 *)

(** C4: in every reachable facade state, [clearMarkers] returns the facade and
    leaves the facade object, hence its marker list, unchanged; each stored
    marker only has its map set to null and every other marker object is
    untouched. *)
Theorem clearMarkers_keeps_handles (s : St) :
  reachable s ->
  exists s',
    clearMarkers s = (s', Ok (this_ref (this s))) /\
    this s' = this s /\
    markers (this s') = markers (this s) /\
    (forall r, r ∈ markers (this s) ->
       marker_heap (wld s') !! r = set_mk_map None <$> marker_heap (wld s) !! r) /\
    (forall r, r ∉ markers (this s) -> marker_heap (wld s') !! r = marker_heap (wld s) !! r).
Proof.
  intros Hreach. pose proof (reachable_markers_live s Hreach) as Hlive.
  destruct (clearMarkers_spec s Hlive) as (s' & Hclear & Hthis & _ & _ & Hheap).
  exists s'. split; [exact Hclear|]. split; [exact Hthis|].
  split; [rewrite Hthis; reflexivity|]. split.
  - intros r Hr. rewrite Hheap, bool_decide_true by exact Hr. reflexivity.
  - intros r Hr. rewrite Hheap, bool_decide_false by exact Hr. reflexivity.
Qed.

Lemma clearMarkers_keeps_handles_witness :
  let s := fst (run_call (CallAddMarkers [entry_3_4] (JFunction 8))
                 (fst (run_call (CallAddMarkers [entry_1_2; entry_3_4] (JFunction 7))
                         (fst (run_call CallInit example_new))))) in
  reachable s /\
  exists s',
    clearMarkers s = (s', Ok (this_ref (this s))) /\
    this s' = this s /\
    markers (this s') = markers (this s) /\
    (forall r, r ∈ markers (this s) ->
       marker_heap (wld s') !! r = set_mk_map None <$> marker_heap (wld s) !! r) /\
    (forall r, r ∉ markers (this s) -> marker_heap (wld s') !! r = marker_heap (wld s) !! r).
Proof.
  intros s. split; [exact example_markers_reachable|].
  exact (clearMarkers_keeps_handles s example_markers_reachable).
Defined.

(** ** C5 *)

Lemma add_calls_app (l1 l2 : list (nat * jsval)) (w : world) :
  add_calls l2 (add_calls l1 w) = add_calls (l1 ++ l2) w.
Proof. unfold add_calls. cbn. rewrite app_assoc. reflexivity. Qed.

Lemma onMapInteract_loop_spec (n : arrayName_t) (args : jsval) (fids : list nat)
      (fuel i : nat) (s : St) :
  this_array n (this s) = map JFunction fids -> i + fuel <= length fids ->
  onMapInteract_loop n args i fuel s
  = (mkSt (this s) (add_calls (map (fun fid => (fid, args)) (take fuel (drop i fids))) (wld s)),
     Ok tt).
Proof.
  revert i s. induction fuel as [|k IH]; intros i s Hcbs Hlen.
  - cbn. destruct s as [f w]. destruct w. unfold add_calls. cbn. rewrite app_nil_r.
    reflexivity.
  - destruct (lookup_lt_is_Some_2 fids i) as [fid Hfid]; [lia|].
    cbn [onMapInteract_loop]. unfold_M. rewrite Hcbs, list_lookup_fmap, Hfid. cbn.
    rewrite (IH (S i)); cbn; [|exact Hcbs|lia].
    rewrite (drop_S fids fid i Hfid). cbn [take map].
    destruct (wld s). unfold add_calls, log_call. cbn. rewrite <- app_assoc. reflexivity.
Qed.

Lemma register_each_spec (n : arrayName_t) (fids : list nat) (s : St) :
  register_each n (map JFunction fids) s
  = (mkSt (set_this_array n (this_array n (this s) ++ map JFunction fids) (this s)) (wld s),
     Ok tt).
Proof.
  revert s. induction fids as [|fid fids IH]; intros s.
  - cbn. rewrite app_nil_r. destruct s as [[] w], n; reflexivity.
  - cbn [map register_each]. unfold_M.
    destruct n; cbn; rewrite IH; cbn; rewrite <- app_assoc; reflexivity.
Qed.

(** C5: on a freshly constructed facade, registering K functions with
    [registerMapClickEvent] (or [registerMapZoomEvent]) and then calling
    [onMapInteract] on that list with payload [P] returns the facade and
    makes exactly K calls, one per callback, in registration order, each with
    [P]; nothing else changes. *)
Theorem onMapInteract_calls_each_once_in_order (n : arrayName_t) (fids : list nat)
      (P el options : jsval) (w w' : world) (f : facade) :
  Map_new el options w = (w', Ok f) ->
  exists s1,
    register_each n (map JFunction fids) (mkSt f w') = (s1, Ok tt) /\
    this_array n (this s1) = map JFunction fids /\
    onMapInteract n P s1
      = (mkSt (this s1) (add_calls (map (fun fid => (fid, P)) fids) w'), Ok (this_ref f)).
Proof.
  intros Hnew.
  assert (Hf : this_array n f = []).
  { unfold Map_new in Hnew. destruct (get_prop options "icon"); [|discriminate].
    inversion Hnew; subst. destruct n; reflexivity. }
  rewrite register_each_spec. cbn. rewrite Hf. cbn.
  eexists; split; [reflexivity|].
  assert (Harr : this_array n (set_this_array n (map JFunction fids) f) = map JFunction fids)
    by (destruct n; reflexivity).
  split; [exact Harr|].
  unfold onMapInteract, ret_this. unfold_M. cbn. rewrite Harr.
  rewrite (onMapInteract_loop_spec n P fids (length (map JFunction fids)) 0); cbn;
    [|exact Harr|rewrite length_map; lia].
  rewrite drop_0, take_ge by (rewrite length_map; lia).
  assert (Href : this_ref (set_this_array n (map JFunction fids) f) = this_ref f)
    by (destruct n; reflexivity).
  rewrite Href. reflexivity.
Qed.

Lemma onMapInteract_calls_each_once_in_order_witness :
  Map_new (JString "div") (JObject []) empty_world
    = (set_next_ref 1 empty_world, Ok (this example_new)) /\
  exists s1,
    register_each MapClickCallbacksName (map JFunction [3; 5; 3])
      (mkSt (this example_new) (set_next_ref 1 empty_world)) = (s1, Ok tt) /\
    this_array MapClickCallbacksName (this s1) = map JFunction [3; 5; 3] /\
    onMapInteract MapClickCallbacksName (JNumber 9) s1
      = (mkSt (this s1) (add_calls (map (fun fid => (fid, JNumber 9)) [3; 5; 3])
                                   (set_next_ref 1 empty_world)),
         Ok (this_ref (this example_new))).
Proof.
  assert (H : Map_new (JString "div") (JObject []) empty_world
              = (set_next_ref 1 empty_world, Ok (this example_new))) by reflexivity.
  split; [exact H|].
  exact (onMapInteract_calls_each_once_in_order MapClickCallbacksName [3; 5; 3]
           (JNumber 9) (JString "div") (JObject []) empty_world _ _ H).
Defined.

(** ** C6 *)

(** C6: [setZoom] with a non-numeric argument returns the facade and changes
    nothing at all; with a number, on a facade whose widget exists, it returns
    the facade and sets that widget's zoom (read back by [getZoom]), changing
    nothing else. *)
Theorem setZoom_number_only (z : jsval) (s : St) :
  (typeof z <> "number" -> setZoom z s = (s, Ok (this_ref (this s)))) /\
  (forall r w,
     typeof z = "number" -> map_ (this s) = Some r -> widget_heap (wld s) !! r = Some w ->
     exists s',
       setZoom z s = (s', Ok (this_ref (this s))) /\
       s' = mkSt (this s) (set_widget_heap
                             (<[r := mkWidget (w_elem w) (w_options w) z (w_center w)]>
                                (widget_heap (wld s))) (wld s)) /\
       getZoom s' = (s', Ok z)).
Proof.
  split.
  - intros Hz. unfold setZoom, ret_this. unfold_M.
    rewrite (proj2 (String.eqb_neq _ _) Hz). reflexivity.
  - intros r w Hz Hmap Hw. unfold setZoom, ret_this.
    rewrite (proj2 (String.eqb_eq _ _) Hz).
    unfold this_map, update_widget. unfold_M. rewrite Hmap. cbn. rewrite Hw.
    eexists; split; [reflexivity|]. split; [reflexivity|].
    unfold getZoom, this_map. unfold_M. cbn. rewrite Hmap. cbn.
    rewrite lookup_insert_eq. reflexivity.
Qed.

(** C6 at [setZoom('7')] and [setZoom(7)] on the facade of the examples. *)
Lemma setZoom_number_only_witness :
  setZoom (JString "7") example_inited = (example_inited, Ok (this_ref (this example_inited))) /\
  exists s',
    setZoom (JNumber 7) example_inited = (s', Ok (this_ref (this example_inited))) /\
    getZoom s' = (s', Ok (JNumber 7)).
Proof.
  destruct (setZoom_number_only (JString "7") example_inited) as [Hnon _].
  destruct (setZoom_number_only (JNumber 7) example_inited) as [_ Hnum].
  split; [apply Hnon; discriminate|].
  destruct (Hnum 1 (mkWidget (JString "div") initial_mapOptions (JNumber 4)
                       (center initial_mapOptions)) eq_refl eq_refl eq_refl)
    as (s' & H1 & _ & H3).
  exists s'. split; assumption.
Defined.

(** ** C7 *)

(** C7: [registerMapClickEvent(cb)] and [registerMapZoomEvent(cb)] never throw
    and return the facade; a function is appended to the end of the
    corresponding list, anything else leaves the facade (both lists included)
    and the world unchanged. *)
Theorem register_appends_functions_only (cb : jsval) (s : St) :
  registerMapClickEvent cb s
    = (mkSt (if is_function cb
             then set_mapClickCallbacks (mapClickCallbacks (this s) ++ [cb]) (this s)
             else this s) (wld s),
       Ok (this_ref (this s))) /\
  registerMapZoomEvent cb s
    = (mkSt (if is_function cb
             then set_mapZoomCallbacks (mapZoomCallbacks (this s) ++ [cb]) (this s)
             else this s) (wld s),
       Ok (this_ref (this s))).
Proof.
  unfold registerMapClickEvent, registerMapZoomEvent, is_function, ret_this. unfold_M.
  destruct (String.eqb (typeof cb) "function"); cbn; [split; reflexivity|].
  destruct s; split; reflexivity.
Qed.

(** ** C8 *)

(** C8 as stated fails: [new Map(div, {zoom: 7, scrollwheel: true})] then
    [init()] builds a widget at zoom 4 with the scroll wheel off; only the
    [icon] option is read. *)
Lemma constructor_options_counterexample :
  let s := st_of (Map_new (JString "div")
                    (JObject [("zoom", JNumber 7); ("scrollwheel", JBool true)])
                    empty_world) in
  mapOptions (this s) = initial_mapOptions /\
  zoom (mapOptions (this s)) = JNumber 4 /\
  scrollwheel (mapOptions (this s)) = JBool false /\
  getZoom (fst (init s)) = (fst (init s), Ok (JNumber 4)).
Proof. vm_compute. repeat split. Qed.

(** C8 (as the code does it): constructing a facade with an options object
    reads only its [icon]: a truthy icon is kept, anything else falls back to
    ['map-pin.png']; the widget options are the fixed literal
    [initial_mapOptions] whatever the other keys are, and [init()] builds the
    widget with them. *)
Theorem constructor_reads_icon_only (el : jsval) (props : list (string * jsval)) (w : world) :
  exists f w',
    Map_new el (JObject props) w = (w', Ok f) /\
    icon f = (if truthy (assoc_lookup "icon" props) then assoc_lookup "icon" props
              else JString "map-pin.png") /\
    mapOptions f = initial_mapOptions /\
    exists r wd,
      init (mkSt f w') = (mkSt (set_map_ (Some r) f) wd, Ok (this_ref f)) /\
      widget_heap wd !! r = Some (mkWidget el initial_mapOptions (JNumber 4)
                                           (center initial_mapOptions)).
Proof.
  eexists _, _. split; [reflexivity|]. split; [reflexivity|]. split; [reflexivity|].
  eexists _, _. unfold init, alloc, ret_this. unfold_M. cbn.
  split; [reflexivity|]. apply lookup_insert_eq.
Qed.

(** ** C9 *)

(** C9: the load guard [!google && !google.maps] lets a loaded [google]
    object without [maps] through: no error is raised and the promise is
    resolved with [Map], although the library did not load. *)
Theorem require_callback_publishes_without_maps :
  library_loaded (GoogleValue (JObject [])) = false /\
  load_guard (GoogleValue (JObject [])) = Ok tt /\
  require_callback (GoogleValue (JObject [])) = (ResolvedWithMap, Ok tt).
Proof. repeat split. Qed.

(** What the guard does decide: it raises exactly when [google] is undeclared
    or falsy, and never looks at [google.maps] otherwise. *)
Lemma load_guard_throws_iff_google_missing (g : global_google) :
  (exists e, load_guard g = Throw e) <->
  match g with GoogleUndeclared => True | GoogleValue v => truthy v = false end.
Proof.
  destruct g as [|v]; cbn.
  - split; [auto|]. intros _. eexists; reflexivity.
  - destruct (truthy v) eqn:Ht; cbn.
    + split; [intros [e H]; discriminate|discriminate].
    + split; [reflexivity|]. intros _.
      destruct v; cbn in *; try discriminate; eexists; reflexivity.
Qed.

(** ** C10 *)

Lemma Map_new_fresh (el options : jsval) (w w' : world) (f : facade) :
  Map_new el options w = (w', Ok f) ->
  map_ f = None /\ markers f = [] /\ mapClickCallbacks f = [] /\ mapZoomCallbacks f = [] /\
  next_ref w' = S (this_ref f) /\ marker_heap w' = marker_heap w.
Proof.
  unfold Map_new. destruct (get_prop options "icon"); [|discriminate].
  intros H. inversion H; subst. repeat split.
Qed.

Lemma registerMapClickEvent_eq (cb : jsval) (s : St) :
  registerMapClickEvent cb s
    = (mkSt (if is_function cb
             then set_mapClickCallbacks (mapClickCallbacks (this s) ++ [cb]) (this s)
             else this s) (wld s),
       Ok (this_ref (this s))).
Proof.
  unfold registerMapClickEvent, is_function, ret_this. unfold_M.
  destruct (String.eqb (typeof cb) "function"); cbn; [reflexivity|]. destruct s; reflexivity.
Qed.

Lemma registerMapZoomEvent_eq (cb : jsval) (s : St) :
  registerMapZoomEvent cb s
    = (mkSt (if is_function cb
             then set_mapZoomCallbacks (mapZoomCallbacks (this s) ++ [cb]) (this s)
             else this s) (wld s),
       Ok (this_ref (this s))).
Proof.
  unfold registerMapZoomEvent, is_function, ret_this. unfold_M.
  destruct (String.eqb (typeof cb) "function"); cbn; [reflexivity|]. destruct s; reflexivity.
Qed.

Lemma filter_is_function_cons (cb : jsval) (l : list jsval) :
  filter (fun v => is_function v = true) (cb :: l)
  = (if is_function cb then [cb] else []) ++ filter (fun v => is_function v = true) l.
Proof. rewrite filter_cons. destruct (is_function cb); reflexivity. Qed.

Lemma Forall2_impl_Forall_l {A B} (P : A -> Prop) (R R' : A -> B -> Prop)
      (l : list A) (k : list B) :
  Forall P l -> Forall2 R l k -> (forall a b, P a -> R a b -> R' a b) -> Forall2 R' l k.
Proof.
  intros HP HR Himp. induction HR as [|a b l k Hab HR IH]; constructor.
  - inversion HP; subst. auto.
  - inversion HP; subst. auto.
Qed.

(** Running register and [addMarkers] operations: the callback lists grow by
    the registered functions, the marker list by one handle per entry. *)
Lemma run_build_ops_spec (os : list build_op) (s : St) :
  Forall (fun e => entry_ok e = true) (added_entries os) ->
  exists rs s',
    run_build_ops os s = (s', Ok tt) /\
    markers (this s') = markers (this s) ++ rs /\
    Forall2 (fun r e => exists mk, marker_heap (wld s') !! r = Some mk /\ mk_data mk = e)
            rs (added_entries os) /\
    Forall (fun r => next_ref (wld s) <= r < next_ref (wld s')) rs /\
    (forall r, r < next_ref (wld s) -> marker_heap (wld s') !! r = marker_heap (wld s) !! r) /\
    next_ref (wld s) <= next_ref (wld s') /\
    mapClickCallbacks (this s') = mapClickCallbacks (this s) ++ click_regs os /\
    mapZoomCallbacks (this s') = mapZoomCallbacks (this s) ++ zoom_regs os /\
    this_ref (this s') = this_ref (this s) /\ map_ (this s') = map_ (this s) /\
    icon (this s') = icon (this s).
Proof.
  revert s. induction os as [|o os IH]; intros s Hok.
  - exists [], s. cbn. rewrite !app_nil_r. repeat split; auto.
  - destruct o as [cb|cb|es cb]; cbn [run_build_ops run_build_op].
    + destruct (IH (mkSt (if is_function cb
                          then set_mapClickCallbacks (mapClickCallbacks (this s) ++ [cb]) (this s)
                          else this s) (wld s)) Hok)
        as (rs & s' & Hrun & Hms & Hdata & Hfresh & Hframe & Hnext & Hclick & Hzoom
            & Href & Hmap & Hicon).
      exists rs, s'. unfold bind at 1. rewrite registerMapClickEvent_eq, Hrun.
      unfold click_regs, zoom_regs in *. cbn [flat_map app].
      rewrite filter_is_function_cons.
      destruct (is_function cb); cbn in *;
        rewrite ?Hms, ?Hclick, ?Hzoom; repeat split; auto;
        rewrite <- app_assoc; reflexivity.
    + destruct (IH (mkSt (if is_function cb
                          then set_mapZoomCallbacks (mapZoomCallbacks (this s) ++ [cb]) (this s)
                          else this s) (wld s)) Hok)
        as (rs & s' & Hrun & Hms & Hdata & Hfresh & Hframe & Hnext & Hclick & Hzoom
            & Href & Hmap & Hicon).
      exists rs, s'. unfold bind at 1. rewrite registerMapZoomEvent_eq, Hrun.
      unfold click_regs, zoom_regs in *. cbn [flat_map app].
      rewrite filter_is_function_cons.
      destruct (is_function cb); cbn in *;
        rewrite ?Hms, ?Hclick, ?Hzoom; repeat split; auto;
        rewrite <- app_assoc; reflexivity.
    + cbn [added_entries flat_map] in Hok. fold (added_entries os) in Hok.
      apply Forall_app in Hok as [Hes Hos].
      destruct (addMarkers_loop_spec es cb s Hes)
        as (rs1 & s1 & Hrun1 & Hms1 & Hdata1 & Hfresh1 & Hframe1 & Hnext1 & Href1 & Hmap1
            & Hicon1 & Hclick1 & Hzoom1 & _ & _).
      destruct (IH s1 Hos)
        as (rs2 & s' & Hrun & Hms & Hdata & Hfresh & Hframe & Hnext & Hclick & Hzoom
            & Href & Hmap & Hicon).
      exists (rs1 ++ rs2), s'.
      unfold bind at 1. rewrite (addMarkers_run es cb s s1 Hrun1 Href1), Hrun.
      split; [reflexivity|].
      split; [rewrite Hms, Hms1, app_assoc; reflexivity|].
      split.
      { cbn [added_entries flat_map]. fold (added_entries os).
        apply Forall2_app; [|exact Hdata].
        eapply Forall2_impl_Forall_l; [exact Hfresh1|exact Hdata1|].
        intros r e Hr (a & b & H).
        exists (added_marker s e a b cb). split; [|reflexivity].
        rewrite <- H. apply Hframe. cbn in Hr. lia. }
      split.
      { apply Forall_app. split.
        - eapply Forall_impl; [exact Hfresh1|]. intros r Hr. cbn in Hr. lia.
        - eapply Forall_impl; [exact Hfresh|]. intros r Hr. cbn in Hr. lia. }
      split; [intros r Hr; rewrite Hframe, Hframe1 by lia; reflexivity|].
      split; [lia|].
      unfold click_regs, zoom_regs in *. cbn [flat_map].
      rewrite !filter_app. fold (click_regs os) (zoom_regs os).
      rewrite Hclick, Hzoom, Hclick1, Hzoom1.
      repeat split; congruence.
Qed.

(** C10: a facade built by [new Map] has no widget ([this.map] is null) and
    empty marker, click-callback and zoom-callback lists; after any sequence
    of register and [addMarkers] calls (with well-formed entries) the click
    and zoom lists are exactly the functions registered on each, in order,
    the widget is still null, and the marker list is exactly one handle per
    added entry, in order, each carrying its entry. *)
Theorem fresh_facade_holds_only_added_items (el options : jsval) (w w' : world) (f : facade)
      (os : list build_op) :
  Map_new el options w = (w', Ok f) ->
  Forall (fun e => entry_ok e = true) (added_entries os) ->
  map_ f = None /\ markers f = [] /\ mapClickCallbacks f = [] /\ mapZoomCallbacks f = [] /\
  exists s',
    run_build_ops os (mkSt f w') = (s', Ok tt) /\
    mapClickCallbacks (this s') = click_regs os /\
    mapZoomCallbacks (this s') = zoom_regs os /\
    map_ (this s') = None /\
    Forall2 (fun r e => exists mk, marker_heap (wld s') !! r = Some mk /\ mk_data mk = e)
            (markers (this s')) (added_entries os).
Proof.
  intros Hnew Hok.
  destruct (Map_new_fresh el options w w' f Hnew) as (Hmap & Hms & Hclick & Hzoom & _).
  do 4 (split; [assumption|]).
  destruct (run_build_ops_spec os (mkSt f w') Hok)
    as (rs & s' & Hrun & Hms' & Hdata & _ & _ & _ & Hclick' & Hzoom' & _ & Hmap' & _).
  exists s'. cbn in *. rewrite Hms in Hms'. rewrite Hclick in Hclick'. rewrite Hzoom in Hzoom'.
  split; [exact Hrun|]. split; [exact Hclick'|]. split; [exact Hzoom'|].
  split; [rewrite Hmap'; exact Hmap|].
  rewrite Hms'. exact Hdata.
Qed.

Definition example_ops : list build_op :=
  [OpRegisterMapClickEvent (JFunction 1); OpRegisterMapZoomEvent (JString "x");
   OpAddMarkers [entry_1_2] (JFunction 2); OpRegisterMapClickEvent JNull;
   OpRegisterMapZoomEvent (JFunction 3); OpAddMarkers [entry_3_4; entry_1_2] JUndefined].

Lemma fresh_facade_holds_only_added_items_witness :
  Map_new (JString "div") (JObject []) empty_world
    = (set_next_ref 1 empty_world, Ok (this example_new)) /\
  Forall (fun e => entry_ok e = true) (added_entries example_ops) /\
  map_ (this example_new) = None /\ markers (this example_new) = [] /\
  mapClickCallbacks (this example_new) = [] /\ mapZoomCallbacks (this example_new) = [] /\
  exists s',
    run_build_ops example_ops (mkSt (this example_new) (set_next_ref 1 empty_world))
      = (s', Ok tt) /\
    mapClickCallbacks (this s') = click_regs example_ops /\
    mapZoomCallbacks (this s') = zoom_regs example_ops /\
    map_ (this s') = None /\
    Forall2 (fun r e => exists mk, marker_heap (wld s') !! r = Some mk /\ mk_data mk = e)
            (markers (this s')) (added_entries example_ops).
Proof.
  assert (H1 : Map_new (JString "div") (JObject []) empty_world
               = (set_next_ref 1 empty_world, Ok (this example_new))) by reflexivity.
  assert (H2 : Forall (fun e => entry_ok e = true) (added_entries example_ops))
    by (vm_compute; repeat constructor).
  split; [exact H1|]. split; [exact H2|].
  exact (fresh_facade_holds_only_added_items (JString "div") (JObject []) empty_world _ _
           example_ops H1 H2).
Defined.

(** The scenario of the spec: two markers at [1,2] and [3,4], then
    [deleteMarkers()] leaves an empty marker list. *)
Example delete_after_two_markers :
  markers (this (fst (deleteMarkers
    (fst (addMarkers [entry_1_2; entry_3_4] (JFunction 7) example_inited))))) = [].
Proof. vm_compute. reflexivity. Qed.

(** * Further properties of the module *)

(** ** The callback arrays only ever hold functions *)

Lemma keeps_bind (P : St -> Prop) {A B} (m : M A) (k : A -> M B) :
  keeps P m -> (forall a, keeps P (k a)) -> keeps P (bind m k).
Proof.
  intros Hm Hk s Hs. specialize (Hm s Hs). unfold bind.
  destruct (m s) as [s1 [a|e]]; cbn in *; [apply Hk|]; exact Hm.
Qed.

Lemma keeps_same (P : St -> Prop) {A} (m : M A) :
  (forall s, fst (m s) = s) -> keeps P m.
Proof. intros H s Hs. rewrite H. exact Hs. Qed.

Lemma keeps_this (P : facade -> Prop) {A} (m : M A) :
  (forall s, this (fst (m s)) = this s) -> keeps (fun s => P (this s)) m.
Proof. intros H s Hs. rewrite H. exact Hs. Qed.

Lemma callable_modify_this (f : facade -> facade) :
  (forall fac, mapClickCallbacks (f fac) = mapClickCallbacks fac /\
               mapZoomCallbacks (f fac) = mapZoomCallbacks fac) ->
  keeps callable_st (modify_this f).
Proof.
  intros Hf s [H1 H2]. unfold callable_st, callbacks_callable. cbn.
  destruct (Hf (this s)) as [-> ->]. split; assumption.
Qed.

Lemma callable_update_widget (r : nat) (g : widget -> widget) :
  keeps callable_st (update_widget r g).
Proof.
  apply keeps_this. intros s. unfold update_widget. unfold_M.
  destruct (widget_heap (wld s) !! r); reflexivity.
Qed.

Lemma callable_update_marker (r : nat) (g : marker -> marker) :
  keeps callable_st (update_marker r g).
Proof.
  apply keeps_this. intros s. unfold update_marker. unfold_M.
  destruct (marker_heap (wld s) !! r); reflexivity.
Qed.

Lemma callable_call (f arg : jsval) : keeps callable_st (call f arg).
Proof. apply keeps_this. intros s. destruct f; reflexivity. Qed.

Lemma callable_alloc : keeps callable_st alloc.
Proof. apply keeps_this. reflexivity. Qed.

Lemma callable_modify_world (g : world -> world) : keeps callable_st (modify_world g).
Proof. apply keeps_this. reflexivity. Qed.

Create HintDb callable_db.
#[local] Hint Resolve callable_update_widget callable_update_marker callable_call
  callable_alloc callable_modify_world : callable_db.

Ltac callable_tac :=
  repeat match goal with
  | |- keeps _ (bind _ _) => apply keeps_bind; [|intro]
  | |- keeps _ (match ?x with _ => _ end) => destruct x
  | |- keeps _ (if ?b then _ else _) => destruct b
  | |- keeps _ (modify_this _) => apply callable_modify_this; intros; cbn; auto
  | |- keeps _ ret_this => apply keeps_same; reflexivity
  | |- keeps _ (ret _) => apply keeps_same; reflexivity
  | |- keeps _ (throw _) => apply keeps_same; reflexivity
  | |- keeps _ (gets _) => apply keeps_same; reflexivity
  | |- keeps _ (lift ?o) => destruct o; cbn
  | |- keeps _ this_map => unfold this_map
  | |- _ => solve [eauto with callable_db]
  end.

Lemma callable_setAllMap_loop (m : option nat) (fuel i : nat) :
  keeps callable_st (setAllMap_loop m i fuel).
Proof.
  revert i. induction fuel as [|k IH]; intros i; cbn [setAllMap_loop]; [callable_tac|].
  unfold marker_setMap. callable_tac.
Qed.

Lemma callable_onMapInteract_loop (n : arrayName_t) (args : jsval) (fuel i : nat) :
  keeps callable_st (onMapInteract_loop n args i fuel).
Proof.
  revert i. induction fuel as [|k IH]; intros i; cbn [onMapInteract_loop]; callable_tac.
Qed.

Lemma callable_run_marker_listeners (r : nat) (ev : string)
      (ls : list (string * marker_listener)) :
  keeps callable_st (run_marker_listeners r ev ls).
Proof.
  induction ls as [|[ev' l] ls IH]; cbn [run_marker_listeners]; [callable_tac|].
  unfold run_marker_listener. callable_tac.
Qed.

Lemma callable_addMarkers_loop (coordsArray : list jsval) (callback : jsval) :
  keeps callable_st (addMarkers_loop coordsArray callback).
Proof.
  induction coordsArray as [|entry rest IH]; cbn [addMarkers_loop]; [callable_tac|].
  unfold new_Marker, assignMarkerEvent. callable_tac.
Qed.

#[local] Hint Resolve callable_setAllMap_loop callable_onMapInteract_loop
  callable_run_marker_listeners callable_addMarkers_loop : callable_db.

Lemma callable_setAllMap (m : option nat) : keeps callable_st (setAllMap m).
Proof. unfold setAllMap. callable_tac. Qed.

Lemma callable_onMapInteract (n : arrayName_t) (args : jsval) :
  keeps callable_st (onMapInteract n args).
Proof. unfold onMapInteract. callable_tac. Qed.

Lemma callable_getZoom : keeps callable_st getZoom.
Proof. unfold getZoom. callable_tac. Qed.

#[local] Hint Resolve callable_setAllMap callable_onMapInteract callable_getZoom : callable_db.

Lemma callable_clearMarkers : keeps callable_st clearMarkers.
Proof. unfold clearMarkers. callable_tac. Qed.

#[local] Hint Resolve callable_clearMarkers : callable_db.

Lemma callable_registerMapClickEvent (cb : jsval) :
  keeps callable_st (registerMapClickEvent cb).
Proof.
  intros s [H1 H2]. rewrite registerMapClickEvent_eq. unfold callable_st, callbacks_callable. cbn.
  destruct (is_function cb) eqn:E; cbn; [|split; assumption].
  split; [apply Forall_app; split; [exact H1|constructor; [exact E|constructor]]|exact H2].
Qed.

Lemma callable_registerMapZoomEvent (cb : jsval) :
  keeps callable_st (registerMapZoomEvent cb).
Proof.
  intros s [H1 H2]. rewrite registerMapZoomEvent_eq. unfold callable_st, callbacks_callable. cbn.
  destruct (is_function cb) eqn:E; cbn; [|split; assumption].
  split; [exact H1|apply Forall_app; split; [exact H2|constructor; [exact E|constructor]]].
Qed.

#[local] Hint Resolve callable_registerMapClickEvent callable_registerMapZoomEvent : callable_db.

Lemma callable_run_call (c : method_call) : keeps callable_st (run_call c).
Proof.
  destruct c; cbn [run_call];
    unfold setCenter, setZoom, addMarkers, showMarkers, deleteMarkers,
      init, map_click, map_zoom_changed, trigger_marker; callable_tac.
Qed.

Lemma reachable_callable_inv (s : St) :
  reachable s -> callbacks_callable (this s).
Proof.
  induction 1 as [el options w w' f Hnew | s c Hs IH].
  - destruct (Map_new_fresh el options w w' f Hnew) as (_ & _ & Hc & Hz & _).
    cbn. unfold callbacks_callable. rewrite Hc, Hz. split; constructor.
  - apply (callable_run_call c s). exact IH.
Qed.

(** X: in every reachable facade state, both callback arrays hold only
    functions: [registerMapClickEvent] and [registerMapZoomEvent] are the only
    writers and they drop anything that is not a function. *)
Theorem reachable_callbacks_callable (s : St) :
  reachable s -> callbacks_callable (this s).
Proof. apply reachable_callable_inv. Qed.

Lemma example_callbacks_reachable : reachable example_callbacks.
Proof.
  unfold example_callbacks. repeat apply reachable_call.
  eapply (reachable_new (JString "div") (JObject []) empty_world). reflexivity.
Qed.

Lemma reachable_callbacks_callable_witness :
  reachable example_callbacks /\ callbacks_callable (this example_callbacks).
Proof.
  split; [exact example_callbacks_reachable|].
  exact (reachable_callbacks_callable example_callbacks example_callbacks_reachable).
Defined.

Lemma callable_list_functions (l : list jsval) :
  Forall (fun v => is_function v = true) l -> exists fids, l = map JFunction fids.
Proof.
  induction 1 as [|v l Hv Hl [fids ->]]; [exists []; reflexivity|].
  destruct v; try discriminate. exists (fid :: fids). reflexivity.
Qed.

Lemma onMapInteract_all (n : arrayName_t) (args : jsval) (fids : list nat) (s : St) :
  this_array n (this s) = map JFunction fids ->
  onMapInteract n args s
  = (mkSt (this s) (add_calls (map (fun fid => (fid, args)) fids) (wld s)),
     Ok (this_ref (this s))).
Proof.
  intros Hl. unfold onMapInteract, ret_this. unfold_M. rewrite Hl.
  rewrite (onMapInteract_loop_spec n args fids (length (map JFunction fids)) 0 s Hl)
    by (rewrite length_map; lia).
  rewrite drop_0, take_ge by (rewrite length_map; lia). reflexivity.
Qed.

(** ** The widget's click listener installed by [init] *)

(** X: in every reachable facade state, a click on the widget calls every
    registered click callback once, in registration order, with the click
    event, and never throws; nothing else changes. *)
Theorem map_click_calls_click_callbacks (s : St) (event : jsval) :
  reachable s ->
  exists fids,
    mapClickCallbacks (this s) = map JFunction fids /\
    map_click event s
      = (mkSt (this s) (add_calls (map (fun fid => (fid, event)) fids) (wld s)), Ok tt).
Proof.
  intros Hs. destruct (reachable_callable_inv s Hs) as [Hc _].
  destruct (callable_list_functions _ Hc) as [fids Hfids].
  exists fids. split; [exact Hfids|].
  unfold map_click. unfold bind at 1.
  rewrite (onMapInteract_all MapClickCallbacksName event fids s Hfids). reflexivity.
Qed.

Lemma map_click_calls_click_callbacks_witness :
  reachable example_callbacks /\
  exists fids,
    mapClickCallbacks (this example_callbacks) = map JFunction fids /\
    map_click (JString "ev") example_callbacks
      = (mkSt (this example_callbacks)
              (add_calls (map (fun fid => (fid, JString "ev")) fids) (wld example_callbacks)),
         Ok tt).
Proof.
  split; [exact example_callbacks_reachable|].
  exact (map_click_calls_click_callbacks example_callbacks (JString "ev")
           example_callbacks_reachable).
Defined.

(** ** [setZoom] followed by the widget's ['zoom_changed'] listener *)

(** X: on a facade whose widget exists and whose zoom callbacks are the
    functions [fids], [setZoom(z)] with a number [z] followed by the widget's
    ['zoom_changed'] event (the listener [init] installs) calls each zoom
    callback once, in registration order, with [z], the value [getZoom] now
    reads. *)
Theorem setZoom_then_zoom_changed (z : jsval) (s : St) (r : nat) (w : widget)
      (fids : list nat) :
  typeof z = "number" -> map_ (this s) = Some r -> widget_heap (wld s) !! r = Some w ->
  mapZoomCallbacks (this s) = map JFunction fids ->
  exists s1,
    setZoom z s = (s1, Ok (this_ref (this s))) /\
    map_zoom_changed s1
      = (mkSt (this s1) (add_calls (map (fun fid => (fid, z)) fids) (wld s1)), Ok tt).
Proof.
  intros Hz Hmap Hw Hfids. unfold setZoom, ret_this.
  rewrite (proj2 (String.eqb_eq _ _) Hz).
  unfold this_map, update_widget. unfold_M. rewrite Hmap. cbn. rewrite Hw.
  eexists; split; [reflexivity|].
  unfold map_zoom_changed, getZoom, this_map. unfold_M. cbn -[onMapInteract].
  rewrite Hmap. cbn -[onMapInteract].
  rewrite lookup_insert_eq. cbn -[onMapInteract].
  rewrite (onMapInteract_all MapZoomCallbacksName z fids); [reflexivity|exact Hfids].
Qed.

Lemma setZoom_then_zoom_changed_witness :
  typeof (JNumber 9) = "number" /\ map_ (this example_callbacks) = Some 1 /\
  widget_heap (wld example_callbacks) !! 1
    = Some (mkWidget (JString "div") initial_mapOptions (JNumber 4) (center initial_mapOptions)) /\
  mapZoomCallbacks (this example_callbacks) = map JFunction [5] /\
  exists s1,
    setZoom (JNumber 9) example_callbacks = (s1, Ok (this_ref (this example_callbacks))) /\
    map_zoom_changed s1
      = (mkSt (this s1) (add_calls (map (fun fid => (fid, JNumber 9)) [5]) (wld s1)), Ok tt).
Proof.
  assert (H1 : typeof (JNumber 9) = "number") by reflexivity.
  assert (H2 : map_ (this example_callbacks) = Some 1) by (vm_compute; reflexivity).
  assert (H3 : widget_heap (wld example_callbacks) !! 1
    = Some (mkWidget (JString "div") initial_mapOptions (JNumber 4) (center initial_mapOptions)))
    by (vm_compute; reflexivity).
  assert (H4 : mapZoomCallbacks (this example_callbacks) = map JFunction [5]) by (vm_compute; reflexivity).
  do 4 (split; [assumption|]).
  exact (setZoom_then_zoom_changed (JNumber 9) example_callbacks 1 _ [5] H1 H2 H3 H4).
Defined.

(** ** [setAllMap] and [showMarkers] *)

Lemma setAllMap_spec (m : option nat) (s : St) :
  markers_live s ->
  exists s',
    setAllMap m s = (s', Ok (this_ref (this s))) /\
    this s' = this s /\
    widget_heap (wld s') = widget_heap (wld s) /\ next_ref (wld s') = next_ref (wld s) /\
    calls (wld s') = calls (wld s) /\
    forall r, marker_heap (wld s') !! r =
              if bool_decide (r ∈ markers (this s))
              then set_mk_map m <$> marker_heap (wld s) !! r
              else marker_heap (wld s) !! r.
Proof.
  intros Hlive.
  destruct (setAllMap_loop_spec m (length (markers (this s))) 0 s Hlive ltac:(lia))
    as (s' & Hrun & Hthis & Hwid & Hnext & Hcalls & Hheap).
  exists s'. unfold setAllMap, ret_this. unfold_M. rewrite Hrun. cbn. rewrite Hthis.
  do 5 (split; [auto|]).
  intros r. rewrite Hheap, drop_0, take_ge by lia. reflexivity.
Qed.

(** X: in every reachable facade state, [setAllMap(target)] returns the
    facade, leaves the facade object unchanged, sets the map of every stored
    marker to [target] (null or a widget) and touches no other marker, widget
    or callback. *)
Theorem setAllMap_sets_every_stored_marker (m : option nat) (s : St) :
  reachable s ->
  exists s',
    setAllMap m s = (s', Ok (this_ref (this s))) /\
    this s' = this s /\
    (forall r, r ∈ markers (this s) ->
       marker_heap (wld s') !! r = set_mk_map m <$> marker_heap (wld s) !! r) /\
    (forall r, r ∉ markers (this s) -> marker_heap (wld s') !! r = marker_heap (wld s) !! r) /\
    widget_heap (wld s') = widget_heap (wld s) /\ calls (wld s') = calls (wld s).
Proof.
  intros Hs.
  destruct (setAllMap_spec m s (reachable_markers_live s Hs))
    as (s' & Hrun & Hthis & Hwid & _ & Hcalls & Hheap).
  exists s'. split; [exact Hrun|]. split; [exact Hthis|].
  split; [intros r Hr; rewrite Hheap, bool_decide_true by exact Hr; reflexivity|].
  split; [intros r Hr; rewrite Hheap, bool_decide_false by exact Hr; reflexivity|].
  split; assumption.
Qed.

Lemma setAllMap_sets_every_stored_marker_witness :
  reachable example_callbacks /\
  exists s',
    setAllMap (Some 1) example_callbacks = (s', Ok (this_ref (this example_callbacks))) /\
    this s' = this example_callbacks /\
    (forall r, r ∈ markers (this example_callbacks) ->
       marker_heap (wld s') !! r = set_mk_map (Some 1) <$> marker_heap (wld example_callbacks) !! r) /\
    (forall r, r ∉ markers (this example_callbacks) ->
       marker_heap (wld s') !! r = marker_heap (wld example_callbacks) !! r) /\
    widget_heap (wld s') = widget_heap (wld example_callbacks) /\
    calls (wld s') = calls (wld example_callbacks).
Proof.
  split; [exact example_callbacks_reachable|].
  exact (setAllMap_sets_every_stored_marker (Some 1) example_callbacks
           example_callbacks_reachable).
Defined.

Lemma world_ext (w1 w2 : world) :
  marker_heap w1 = marker_heap w2 -> widget_heap w1 = widget_heap w2 ->
  next_ref w1 = next_ref w2 -> calls w1 = calls w2 -> w1 = w2.
Proof. destruct w1, w2; cbn. intros -> -> -> ->. reflexivity. Qed.

Lemma showMarkers_eq (s : St) :
  showMarkers s = (fun p => (fst p, match snd p with
                                     | Ok _ => Ok (this_ref (this (fst p)))
                                     | Throw e => Throw e end))
                    (setAllMap (map_ (this s)) s).
Proof.
  unfold showMarkers, ret_this. unfold_M. destruct (setAllMap (map_ (this s)) s) as [s' [a|e]].
  all: reflexivity.
Qed.

(** X: in every reachable facade state, [clearMarkers()] followed by
    [showMarkers()] ends in exactly the state [showMarkers()] alone reaches,
    and returns the facade: hiding keeps every handle, so showing re-attaches
    all of them to [this.map]. *)
Theorem clear_then_show_is_show (s : St) :
  reachable s ->
  showMarkers (fst (clearMarkers s)) = showMarkers s /\
  snd (showMarkers s) = Ok (this_ref (this s)).
Proof.
  intros Hs. pose proof (reachable_markers_live s Hs) as Hlive.
  destruct (setAllMap_spec None s Hlive) as (s1 & Hrun1 & Hthis1 & Hwid1 & Hnext1 & Hcalls1 & Hheap1).
  assert (Hclear : clearMarkers s = (s1, Ok (this_ref (this s)))).
  { unfold clearMarkers, ret_this. unfold_M. rewrite Hrun1. cbn. rewrite Hthis1. reflexivity. }
  assert (Hlive1 : markers_live s1).
  { unfold markers_live in *. rewrite Hthis1. eapply Forall_impl; [exact Hlive|].
    intros r [mk Hmk]. rewrite Hheap1. case_bool_decide; rewrite Hmk; eauto. }
  rewrite Hclear. cbn [fst].
  rewrite !showMarkers_eq.
  replace (map_ (this s1)) with (map_ (this s)) by (rewrite Hthis1; reflexivity).
  destruct (setAllMap_spec (map_ (this s)) s Hlive)
    as (s2 & Hrun2 & Hthis2 & Hwid2 & Hnext2 & Hcalls2 & Hheap2).
  destruct (setAllMap_spec (map_ (this s)) s1 Hlive1)
    as (s3 & Hrun3 & Hthis3 & Hwid3 & Hnext3 & Hcalls3 & Hheap3).
  rewrite Hrun3, Hrun2. cbn.
  assert (Hs32 : s3 = s2).
  { destruct s3 as [f3 w3], s2 as [f2 w2]. cbn in *. f_equal; [congruence|].
    apply world_ext; try congruence.
    apply map_eq. intros r. rewrite Hheap3, Hheap2, Hthis1, Hheap1.
    case_bool_decide; [|reflexivity]. destruct (marker_heap (wld s) !! r); reflexivity. }
  rewrite Hs32, Hthis2. split; reflexivity.
Qed.

Lemma clear_then_show_is_show_witness :
  reachable example_callbacks /\
  showMarkers (fst (clearMarkers example_callbacks)) = showMarkers example_callbacks /\
  snd (showMarkers example_callbacks) = Ok (this_ref (this example_callbacks)).
Proof.
  split; [exact example_callbacks_reachable|].
  exact (clear_then_show_is_show example_callbacks example_callbacks_reachable).
Defined.

(** ** A second [deleteMarkers] *)

Lemma deleteMarkers_empty (s : St) :
  markers (this s) = [] -> deleteMarkers s = (s, Ok (this_ref (this s))).
Proof.
  intros Hms. unfold deleteMarkers, clearMarkers, setAllMap, ret_this. unfold_M.
  cbn. rewrite Hms. cbn. destruct s as [[] w]. cbn in *. subst. reflexivity.
Qed.

(** X: in every reachable facade state, a second [deleteMarkers()] changes
    nothing and returns the facade: the first one leaves the list empty, so
    the second hides no marker. *)
Theorem deleteMarkers_twice_is_once (s : St) :
  reachable s ->
  deleteMarkers (fst (deleteMarkers s)) = (fst (deleteMarkers s), Ok (this_ref (this s))).
Proof.
  intros Hs.
  destruct (clearMarkers_spec s (reachable_markers_live s Hs)) as (s1 & Hclear & Hthis & _).
  assert (Hdel : deleteMarkers s = (mkSt (set_markers [] (this s1)) (wld s1),
                                    Ok (this_ref (this s)))).
  { unfold deleteMarkers, ret_this. unfold_M. rewrite Hclear. cbn. rewrite Hthis. reflexivity. }
  rewrite Hdel. cbn [fst]. rewrite deleteMarkers_empty by reflexivity.
  cbn. rewrite Hthis. reflexivity.
Qed.

Lemma deleteMarkers_twice_is_once_witness :
  reachable example_callbacks /\
  deleteMarkers (fst (deleteMarkers example_callbacks))
    = (fst (deleteMarkers example_callbacks), Ok (this_ref (this example_callbacks))).
Proof.
  split; [exact example_callbacks_reachable|].
  exact (deleteMarkers_twice_is_once example_callbacks example_callbacks_reachable).
Defined.

(** ** Widget calls before [init()] *)



(** ** [setCenter] *)

(** X: with a widget, [setCenter(latLng)] for an array returns the facade and
    sets the widget's center to [LatLng(latLng[0], latLng[1])] with no check:
    missing coordinates are passed on as [undefined]; nothing else changes. *)
Theorem setCenter_passes_coordinates (xs : list jsval) (s : St) (r : nat) (w : widget) :
  map_ (this s) = Some r -> widget_heap (wld s) !! r = Some w ->
  setCenter (JArray xs) s
  = (mkSt (this s)
          (set_widget_heap
             (<[r := mkWidget (w_elem w) (w_options w) (w_zoom w)
                       (mkLatLng (default JUndefined (xs !! 0))
                                 (default JUndefined (xs !! 1)))]> (widget_heap (wld s)))
             (wld s)),
     Ok (this_ref (this s))).
Proof.
  intros Hmap Hw. unfold setCenter, this_map, update_widget, ret_this. unfold_M. cbn.
  rewrite Hmap. cbn. rewrite Hw. reflexivity.
Qed.

Lemma setCenter_passes_coordinates_witness :
  map_ (this example_inited) = Some 1 /\
  widget_heap (wld example_inited) !! 1
    = Some (mkWidget (JString "div") initial_mapOptions (JNumber 4) (center initial_mapOptions)) /\
  setCenter (JArray [JNumber 38]) example_inited
  = (mkSt (this example_inited)
          (set_widget_heap
             (<[1 := mkWidget (JString "div") initial_mapOptions (JNumber 4)
                       (mkLatLng (JNumber 38) JUndefined)]> (widget_heap (wld example_inited)))
             (wld example_inited)),
     Ok (this_ref (this example_inited))).
Proof.
  assert (H1 : map_ (this example_inited) = Some 1) by reflexivity.
  assert (H2 : widget_heap (wld example_inited) !! 1
    = Some (mkWidget (JString "div") initial_mapOptions (JNumber 4) (center initial_mapOptions)))
    by (vm_compute; reflexivity).
  split; [exact H1|]. split; [exact H2|].
  exact (setCenter_passes_coordinates [JNumber 38] example_inited 1 _ H1 H2).
Defined.

(** ** [addMarkers] on a malformed entry *)

Lemma addMarkers_loop_prefix (good rest : list jsval) (callback : jsval) (s : St) :
  Forall (fun e => entry_ok e = true) good ->
  addMarkers_loop (good ++ rest) callback s
  = addMarkers_loop rest callback (fst (addMarkers_loop good callback s)).
Proof.
  revert s. induction good as [|e good IH]; intros s Hok; [reflexivity|].
  inversion Hok as [|? ? He Hgood]; subst.
  destruct (entry_ok_inv e He) as (ll & a & b & Hll & Ha & Hb).
  rewrite <- app_comm_cons.
  rewrite !(addMarkers_loop_cons e _ callback s ll a b Hll Ha Hb).
  apply IH. exact Hgood.
Qed.

Lemma addMarkers_loop_bad (bad : jsval) (rest : list jsval) (callback : jsval) (s : St) :
  entry_ok bad = false -> addMarkers_loop (bad :: rest) callback s = (s, Throw TypeError).
Proof.
  unfold entry_ok. intros Hbad. cbn [addMarkers_loop]. unfold_M.
  destruct (get_prop bad "latLng") as [ll|e] eqn:Hll.
  - destruct (get_index ll 0) as [a|e] eqn:Ha; [discriminate|].
    unfold ret. cbn beta iota. rewrite Ha. cbn.
    destruct ll; cbn in Ha; inversion Ha; reflexivity.
  - cbn. destruct bad; cbn in Hll; inversion Hll; reflexivity.
Qed.

(** X: [addMarkers] is not atomic: when entries [good] are well formed and the
    next entry is not ([null], [undefined], or with a null or missing
    [latLng]), the call throws a TypeError after appending one handle per
    entry of [good], which stay in the marker list; later entries are not
    read. *)
Theorem addMarkers_keeps_prefix_on_bad_entry (good : list jsval) (bad : jsval)
      (rest : list jsval) (callback : jsval) (s : St) :
  Forall (fun e => entry_ok e = true) good -> entry_ok bad = false ->
  exists rs s1,
    addMarkers (good ++ bad :: rest) callback s = (s1, Throw TypeError) /\
    markers (this s1) = markers (this s) ++ rs /\
    Forall2 (fun r e => exists mk, marker_heap (wld s1) !! r = Some mk /\ mk_data mk = e)
            rs good.
Proof.
  intros Hgood Hbad.
  destruct (addMarkers_loop_spec good callback s Hgood)
    as (rs & s1 & Hrun & Hms & Hdata & _).
  exists rs, s1.
  unfold addMarkers. unfold bind at 1.
  rewrite (addMarkers_loop_prefix good (bad :: rest) callback s Hgood), Hrun. cbn [fst].
  rewrite (addMarkers_loop_bad bad rest callback s1 Hbad).
  split; [reflexivity|]. split; [exact Hms|].
  eapply Forall2_impl; [exact Hdata|]. intros r e (a & b & H).
  eexists; split; [exact H|reflexivity].
Qed.

Lemma addMarkers_keeps_prefix_on_bad_entry_witness :
  Forall (fun e => entry_ok e = true) [entry_1_2] /\ entry_ok JNull = false /\
  exists rs s1,
    addMarkers ([entry_1_2] ++ JNull :: [entry_3_4]) (JFunction 7) example_inited
      = (s1, Throw TypeError) /\
    markers (this s1) = markers (this example_inited) ++ rs /\
    Forall2 (fun r e => exists mk, marker_heap (wld s1) !! r = Some mk /\ mk_data mk = e)
            rs [entry_1_2].
Proof.
  assert (H1 : Forall (fun e => entry_ok e = true) [entry_1_2]) by (repeat constructor).
  assert (H2 : entry_ok JNull = false) by reflexivity.
  split; [exact H1|]. split; [exact H2|].
  exact (addMarkers_keeps_prefix_on_bad_entry [entry_1_2] JNull [entry_3_4] (JFunction 7)
           example_inited H1 H2).
Defined.

(** X: in every reachable facade state, every reference in [this.markers]
    denotes a marker object of the library: [addMarkers] only appends markers
    it has just created, and nothing removes marker objects. *)
Theorem reachable_markers_stay_live (s : St) : reachable s -> markers_live s.
Proof. apply reachable_markers_live. Qed.

Lemma reachable_markers_stay_live_witness :
  reachable example_callbacks /\ markers_live example_callbacks.
Proof.
  split; [exact example_callbacks_reachable|].
  exact (reachable_markers_stay_live example_callbacks example_callbacks_reachable).
Defined.
